(** * bootstrap.js: the localized-string helper [getString]

    A shallow embedding of [getString] and [getString.init] from
    [src/bootstrap.js], and the properties of the string formatter that the
    specification states about them.

    JavaScript strings are modelled by [string] (a sequence of code units,
    here restricted to one byte each), the two string bundles by finite maps
    from names to templates, and the properties stored on the function object
    ([getString.bundle], [getString.fallback], [getString.plural]) by a
    [store] threaded through a small state-and-exception monad. *)

From Stdlib Require Import ZArith Ascii String Decimal DecimalString DecimalNat Lia.
From stdpp Require Import gmap strings.

Local Open Scope string_scope.
Local Open Scope list_scope.

(** ** JavaScript values *)

(** The values that reach [getString] as [args] and [plural]: [undefined],
    [null], booleans, numbers, strings and dense arrays of these.  A number
    is an integer small enough for its string to be its decimal numeral
    (below 10^21 in magnitude); functions and other objects, which
    [String.prototype.replace] and [ToString] would call back, are left
    out. *)
#[warning="-register-all"]
Inductive value :=
| Undefined
| Null
| Bool (b : bool)
| Num (n : Z)
| Str (s : string)
| Arr (elems : list value).

(** [v == null]: true of [null] and [undefined] only. *)
Definition is_null (v : value) : bool :=
  match v with Undefined | Null => true | _ => false end.

(** [typeof v == "string"]. *)
Definition typeof_string (v : value) : bool :=
  match v with Str _ => true | _ => false end.

(** [v.length], for a [v] that is neither [null] nor [undefined]. *)
Definition get_length (v : value) : value :=
  match v with
  | Str s => Num (Z.of_nat (String.length s))
  | Arr l => Num (Z.of_nat (List.length l))
  | _ => Undefined
  end.

(** The decimal numeral of a natural number, as string concatenation with a
    number produces it. *)
Definition dec (n : nat) : string := NilEmpty.string_of_uint (Nat.to_uint n).

(** [ToString]: what [String.prototype.replace] does to a replacement value
    that is not a function.  An array is joined with commas, its [null] and
    [undefined] elements giving the empty string. *)
Fixpoint ToString (v : value) : string :=
  match v with
  | Undefined => "undefined"
  | Null => "null"
  | Bool true => "true"
  | Bool false => "false"
  | Num n => NilZero.string_of_int (Z.to_int n)
  | Str s => s
  | Arr l =>
      (fix join (l : list value) : string :=
         match l with
         | [] => ""
         | x :: l' =>
             let e := if is_null x then "" else ToString x in
             match l' with
             | [] => e
             | _ :: _ => e +:+ "," +:+ join l'
             end
         end) l
  end.

(** ** Global, case-insensitive replacement *)

(** [Canonicalize] for the [i] flag: a code unit is compared through its upper
    case.  Every pattern of this program consists of ASCII characters, and a
    code unit outside ASCII never canonicalizes to an ASCII one, so only the
    ASCII letters matter. *)
Definition canonicalize (c : ascii) : ascii :=
  let n := nat_of_ascii c in
  if (97 <=? n)%nat && (n <=? 122)%nat then ascii_of_nat (n - 32) else c.

(** Match the literal pattern [pat], ignoring case, at the head of [s]; the
    result is the matched text and what follows it. *)
Fixpoint match_at (pat s : string) : option (string * string) :=
  match pat with
  | EmptyString => Some (EmptyString, s)
  | String p pat' =>
      match s with
      | EmptyString => None
      | String c s' =>
          if Ascii.eqb (canonicalize p) (canonicalize c) then
            match match_at pat' s' with
            | Some (m, rest) => Some (String c m, rest)
            | None => None
            end
          else None
      end
  end.

(** [GetSubstitution] for a regular expression without capture groups: in the
    replacement text [$$] is a dollar sign, [$&] the matched text, [$`] the
    text before the match and [$'] the text after it; any other [$] stands
    for itself. *)
Fixpoint GetSubstitution (matched before after replacement : string) : string :=
  match replacement with
  | EmptyString => EmptyString
  | String c r =>
      if Ascii.eqb c "$" then
        match r with
        | EmptyString => String c EmptyString
        | String d r' =>
            if Ascii.eqb d "$" then String "$" (GetSubstitution matched before after r')
            else if Ascii.eqb d "&" then matched +:+ GetSubstitution matched before after r'
            else if Ascii.eqb d "`" then before +:+ GetSubstitution matched before after r'
            else if Ascii.eqb d "'" then after +:+ GetSubstitution matched before after r'
            else String c (GetSubstitution matched before after r)
        end
      else String c (GetSubstitution matched before after r)
  end.

(** The scan of [str.replace(/pat/gi, replacement)]: matches are found from
    left to right in the original string and do not overlap; [before] is the
    part of the original string already passed, and [skip] counts the code
    units of the current match still to be passed. *)
Fixpoint replace_from (pat replacement : string) (skip : nat)
    (before s : string) : string :=
  match s with
  | EmptyString => EmptyString
  | String c s' =>
      match skip with
      | S k => replace_from pat replacement k (before +:+ String c EmptyString) s'
      | O =>
          match match_at pat s with
          | Some (m, rest) =>
              GetSubstitution m before rest replacement
              +:+ replace_from pat replacement (String.length m - 1)
                    (before +:+ String c EmptyString) s'
          | None =>
              String c (replace_from pat replacement 0
                          (before +:+ String c EmptyString) s')
          end
      end
  end.

(** [str.replace(RegExp(pat, "gi"), replaceValue)] for a literal [pat]. *)
Definition replace (pat : string) (replaceValue : value) (str : string) : string :=
  replace_from pat (ToString replaceValue) 0 EmptyString str.

(** ** The state of [getString] and its effects *)

(** What a lookup or a call can throw: the failure of
    [GetStringFromName] on a name the bundle does not define (the
    specification's [MissingKey]), the [TypeError] of using [null] or
    [undefined] as an object or a function, and the failure a plural-form
    getter may report. *)
Inductive exn :=
| MissingKey (name : string)
| TypeError
| PluralFormOutOfRange.

(** A plural-form getter, [getString.plural]: from the number and the
    localized string to the form to use. *)
Definition getter : Type := value -> string -> exn + string.

(** The properties stored on the function object.  [None] is a property
    that is [null] or not yet set. *)
Record store := mkStore {
  bundle : option (gmap string string);
  fallback : option (gmap string string);
  plural : option getter
}.

(** A computation reads and writes the store and returns or throws. *)
Definition M (A : Type) : Type := store -> (exn + A) * store.

Definition ret {A} (a : A) : M A := fun st => (inr a, st).

Definition throw {A} (e : exn) : M A := fun st => (inl e, st).

Definition bind {A B} (m : M A) (k : A -> M B) : M B :=
  fun st =>
    match m st with
    | (inr a, st') => k a st'
    | (inl e, st') => (inl e, st')
    end.

Definition try_catch {A} (m : M A) (handler : exn -> M A) : M A :=
  fun st =>
    match m st with
    | (inr a, st') => (inr a, st')
    | (inl e, st') => handler e st'
    end.

Definition read {A} (field : store -> A) : M A := fun st => (inr (field st), st).

Definition write (update : store -> store) : M unit := fun st => (inr tt, update st).

Definition lift {A} (r : exn + A) : M A := fun st => (r, st).

Notation "'let*' x ':=' m 'in' k" := (bind m (fun x => k))
  (at level 10, x name, m at level 100, k at level 200).

Notation "m ';;' k" := (bind m (fun _ => k))
  (at level 100, k at level 200, right associativity).

Definition set_bundle (b : option (gmap string string)) (st : store) : store :=
  mkStore b (fallback st) (plural st).

Definition set_fallback (b : option (gmap string string)) (st : store) : store :=
  mkStore (bundle st) b (plural st).

Definition set_plural (g : option getter) (st : store) : store :=
  mkStore (bundle st) (fallback st) g.

(** ** [getString] *)

(** [b.GetStringFromName(name)]. *)
Definition GetStringFromName (b : option (gmap string string)) (name : string)
    : M string :=
  match b with
  | None => throw TypeError
  | Some t =>
      match t !! name with
      | Some str => ret str
      | None => throw (MissingKey name)
      end
  end.

(** Lines 69-76: the cached bundle first, the fallback when that throws. *)
Definition lookupString (name : string) : M string :=
  try_catch
    (let* b := read bundle in GetStringFromName b name)
    (fun _ => let* f := read fallback in GetStringFromName f name).

(** Lines 78-80. *)
Definition pickPlural (pluralNum : value) (str : string) : M string :=
  if negb (is_null pluralNum) then
    let* g := read plural in
    match g with
    | Some get => lift (get pluralNum str)
    | None => throw TypeError
    end
  else ret str.

(** The regular expression of line 93, [RegExp("%" + (index + 1) + "\\$S", "gi")],
    as the literal text it matches. *)
Definition positional (index : nat) : string :=
  "%" +:+ dec (index + 1) +:+ "$S".

(** Lines 92-94: [Array.forEach] over [args], from [index] on. *)
Fixpoint forEach (args : list value) (index : nat) (str : string) : string :=
  match args with
  | [] => str
  | replacement :: args' =>
      forEach args' (S index) (replace (positional index) replacement str)
  end.

(** Lines 85-86. *)
Definition toArray (args : value) : list value :=
  if typeof_string args || is_null (get_length args) then [args]
  else match args with Arr elems => elems | _ => [] end.

(** Lines 83-95. *)
Definition fillArgs (args : value) (str : string) : string :=
  if negb (is_null args) then
    let args := toArray args in
    let str := replace "%s" (nth 0 args Undefined) str in
    forEach args 0 str
  else str.

Definition getString (name : string) (args pluralNum : value) : M string :=
  let* str := lookupString name in
  let* str := pickPlural pluralNum str in
  ret (fillArgs args str).

(** ** [getString.init] *)

(** The add-on, as far as [init] uses it: the properties file found at a
    resource path, when there is one that can be read as a bundle. *)
Definition addon : Type := string -> option (gmap string string).

(** [getBundle] of lines 116-132. *)
Definition getBundle (a : addon) (locale : string) : option (gmap string string) :=
  let propertyPath := "locales/" +:+ locale +:+ ".properties" in
  a propertyPath.

Section Init.

(** [PluralForm.makeGetter] of the host's [PluralForm.jsm], and the locale
    the chrome registry reports as selected. *)
Variable makeGetter : string -> getter.
Variable selectedLocale : string.

Definition init (a : addon) (getAlternate : option (string -> string)) : M unit :=
  let getAlternate :=
    match getAlternate with
    | Some f => f
    | None => fun _ => "en-US"
    end in
  let locale := selectedLocale in
  write (set_bundle
           (match getBundle a locale with
            | Some b => Some b
            | None => getBundle a (getAlternate locale)
            end)) ;;
  write (set_fallback (getBundle a "en-US")) ;;
  let* rule := getString "pluralRule" Undefined Undefined in
  write (set_plural (Some (makeGetter rule))).

End Init.

(** The store before [init] has run. *)
Definition uninitialized : store := mkStore None None None.

(** ** A plural rule *)

(** Modelled from the spec: the plural forms of a template, which the
    properties files separate by semicolons. *)
Fixpoint splitForms (str : string) : list string :=
  match str with
  | EmptyString => [EmptyString]
  | String c str' =>
      if Ascii.eqb c ";" then EmptyString :: splitForms str'
      else
        match splitForms str' with
        | w :: ws => String c w :: ws
        | [] => [String c EmptyString]
        end
  end.

(** Modelled from the spec: the plural-form getters come from the host's
    [PluralForm] module, which is not among the sources.  The rule family
    "two forms, boundary at quantity = 1" gives form index 0 to the quantity 1
    and form index 1 to every other quantity. *)
Definition twoFormsIndex (quantity : value) : nat :=
  match quantity with
  | Num 1 => 0
  | _ => 1
  end.

(** Modelled from the spec: the getter of a rule applies the rule to the
    quantity and selects the sub-form with that index out of the template's
    plural forms, failing fast when there is no such form. *)
Definition ruleGetter (rule : value -> nat) : getter :=
  fun quantity str =>
    match splitForms str !! rule quantity with
    | Some form => inr form
    | None => inl PluralFormOutOfRange
    end.

(** ** Templates as placeholders and literal text *)

(** Whether the code unit [c] occurs in [s]. *)
Fixpoint occurs (c : ascii) (s : string) : bool :=
  match s with
  | EmptyString => false
  | String d s' => Ascii.eqb c d || occurs c s'
  end.

(** A replacement text is plain when it holds neither a dollar sign, which
    [GetSubstitution] interprets, nor a percent sign, which could begin a
    placeholder. *)
Definition plain (text : string) : bool :=
  negb (occurs "$" text) && negb (occurs "%" text).

(** The pieces of a template: literal text, the bare placeholder [%s] or
    [%S], and the positional placeholder [%n$s] or [%n$S]. *)
Inductive token :=
| Lit (text : string)
| Bare (upper : bool)
| Positional (n : nat) (upper : bool).

Definition letterS (upper : bool) : ascii := if upper then "S"%char else "s"%char.

Definition bareText (upper : bool) : string :=
  String "%" (String (letterS upper) EmptyString).

Definition positionalText (n : nat) (upper : bool) : string :=
  String "%" (dec n +:+ String "$" (String (letterS upper) EmptyString)).

Definition tokenText (t : token) : string :=
  match t with
  | Lit text => text
  | Bare upper => bareText upper
  | Positional n upper => positionalText n upper
  end.

(** The template a sequence of tokens stands for. *)
Fixpoint render (ts : list token) : string :=
  match ts with
  | [] => EmptyString
  | t :: ts' => tokenText t +:+ render ts'
  end.

(** A template is unambiguous when it is the rendering of tokens whose
    literal text holds no percent sign: every percent sign of the template
    then begins a placeholder. *)
Definition unambiguous (ts : list token) : bool :=
  forallb (fun t => match t with Lit text => negb (occurs "%" text) | _ => true end) ts.

(** What the bare pass and the positional pass for [index] do to a token. *)
Definition fillBare (text : string) (t : token) : token :=
  match t with
  | Bare _ => Lit text
  | _ => t
  end.

Definition fillPositional (index : nat) (text : string) (t : token) : token :=
  match t with
  | Positional n _ => if Nat.eqb n (index + 1) then Lit text else t
  | _ => t
  end.

(** [Array.forEach] of lines 92-94, on tokens. *)
Fixpoint fillEach (args : list value) (index : nat) (ts : list token) : list token :=
  match args with
  | [] => ts
  | replacement :: args' =>
      fillEach args' (S index) (map (fillPositional index (ToString replacement)) ts)
  end.

(** ** Auxiliary notions for the statements *)

(** Decimal digits. *)
Definition is_digit (c : ascii) : bool :=
  let n := nat_of_ascii c in (48 <=? n)%nat && (n <=? 57)%nat.

Fixpoint digits (s : string) : bool :=
  match s with
  | EmptyString => true
  | String c s' => is_digit c && digits s'
  end.

(** A string that is empty or begins with a percent sign. *)
Definition percent_headed (v : string) : Prop :=
  match v with
  | EmptyString => True
  | String c _ => c = "%"%char
  end.

(** Every argument's text is plain. *)
Definition plainArgs (args : list value) : bool :=
  forallb (fun v => plain (ToString v)) args.

(** Every argument's text is free of dollar signs, so that
    [GetSubstitution] inserts it as it is. *)
Definition literalArgs (args : list value) : bool :=
  forallb (fun v => negb (occurs "$" (ToString v))) args.

(** The template a bundle has for a name, when the bundle is there and
    defines the name. *)
Definition tableLookup (b : option (gmap string string)) (name : string)
    : option string :=
  match b with
  | Some t => t !! name
  | None => None
  end.

(** Lines 78-97, what [getString] does with the template it has found. *)
Definition format (args pluralNum : value) (template : string) : M string :=
  let* str := pickPlural pluralNum template in
  ret (fillArgs args str).

(** ** Sample data *)

Definition demoPrimary : gmap string string :=
  <["hereHave" := "Here, have %s and %2$S"]>
    (<["money" := "one item;%s items"]>
       (<["pluralRule" := "1"]> ∅)).

Definition demoFallback : gmap string string :=
  <["hopeEnough" := "%1$s, I hope %2$s is enough"]>
    (<["pluralRule" := "1"]> ∅).

Definition demoStore : store :=
  mkStore (Some demoPrimary) (Some demoFallback) (Some (ruleGetter twoFormsIndex)).

(** An add-on that ships the two sample bundles, as [de] and [en-US]. *)
Definition demoAddon : addon :=
  fun path =>
    if String.eqb path "locales/de.properties" then Some demoPrimary
    else if String.eqb path "locales/en-US.properties" then Some demoFallback
    else None.

(** An add-on that ships [en-US] only. *)
Definition referenceOnlyAddon : addon :=
  fun path =>
    if String.eqb path "locales/en-US.properties" then Some demoFallback else None.

(** An add-on whose only bundle, [de], does not define [pluralRule]. *)
Definition ruleLessAddon : addon :=
  fun path =>
    if String.eqb path "locales/de.properties"
    then Some (<["askName" := "Wie heisst du?"]> ∅)
    else None.

(** The getter factory used with the sample data: whatever the rule, the
    two-form getter. *)
Definition demoMakeGetter : string -> getter := fun _ => ruleGetter twoFormsIndex.

(** The template [Here, have %s and %2$S] as tokens. *)
Definition hereHaveTokens : list token :=
  [Lit "Here, have "; Bare false; Lit " and "; Positional 2 true].

(** The locale [init] asks for when the selected one has no bundle. *)
Definition alternateLocale (selectedLocale : string)
    (getAlternate : option (string -> string)) : string :=
  match getAlternate with
  | Some f => f selectedLocale
  | None => "en-US"
  end.

(** The bundle [init] installs as [getString.bundle]. *)
Definition primaryBundle (selectedLocale : string) (a : addon)
    (getAlternate : option (string -> string)) : option (gmap string string) :=
  match getBundle a selectedLocale with
  | Some b => Some b
  | None => getBundle a (alternateLocale selectedLocale getAlternate)
  end.

(** ** Substitution, token by token *)

(** The text of the [n]-th argument, counted from 1, when there is one. *)
Definition argText (args : list value) (n : nat) : option string :=
  match n with
  | 0 => None
  | S i =>
      match nth_error args i with
      | Some v => Some (ToString v)
      | None => None
      end
  end.

(** What the positional passes for the arguments [args], the first of them
    being the pass for [index], make of a token. *)
Definition fillFrom (args : list value) (index : nat) (t : token) : token :=
  match t with
  | Positional n _ =>
      match argText args (n - index) with
      | Some text => Lit text
      | None => t
      end
  | _ => t
  end.

(** What the passes together make of a token: a bare placeholder takes the
    first argument, a positional placeholder the argument of its index when
    there is one. *)
Definition fillToken (args : list value) (t : token) : token :=
  match t with
  | Lit text => Lit text
  | Bare _ => Lit (ToString (nth 0 args Undefined))
  | Positional n _ =>
      match argText args n with
      | Some text => Lit text
      | None => t
      end
  end.

(** The bare placeholder written as the positional placeholder of index 1. *)
Definition bareAsFirst (t : token) : token :=
  match t with
  | Bare upper => Positional 1 upper
  | _ => t
  end.

(** The string without its first [k] code units. *)
Fixpoint dropString (k : nat) (s : string) : string :=
  match k, s with
  | S k', String _ s' => dropString k' s'
  | _, _ => s
  end.

(** An add-on whose bundle for [de] does not define [pluralRule], with the
    sample bundle for [en-US]. *)
Definition ruleLessAddonWithReference : addon :=
  fun path =>
    if String.eqb path "locales/de.properties"
    then Some (<["askName" := "Wie heisst du?"]> ∅)
    else if String.eqb path "locales/en-US.properties" then Some demoFallback
    else None.

(** ** [startup] *)

(** What the content window shows. *)
Inductive event :=
| Prompt (message : string)
| Confirm (message : string)
| Alert (message : string).

(** The user at the window: the answer to the question for the name (a
    string, or [null] when the prompt is cancelled), and for every turn of
    the loop the answer to the question for the amount and whether the
    confirmation is accepted.  The turns are those the user has taken so far:
    when they are used up the dialog is still open. *)
Record window := mkWindow {
  nameAnswer : value;
  rounds : list (value * bool)
}.

(** A computation of [startup]: it also adds to what the window has shown,
    which stays shown when an exception is thrown. *)
Definition W (A : Type) : Type :=
  list event -> store -> (exn + A) * list event * store.

Definition retW {A} (a : A) : W A := fun shown st => (inr a, shown, st).

Definition bindW {A B} (m : W A) (k : A -> W B) : W B :=
  fun shown st =>
    match m shown st with
    | (inr a, shown', st') => k a shown' st'
    | (inl e, shown', st') => (inl e, shown', st')
    end.

Definition liftW {A} (m : M A) : W A :=
  fun shown st =>
    match m st with
    | (r, st') => (r, shown, st')
    end.

Definition emit (e : event) : W unit :=
  fun shown st => (inr tt, shown ++ [e], st).

Notation "'let+' x ':=' m 'in' k" := (bindW m (fun x => k))
  (at level 10, x name, m at level 100, k at level 200).

Notation "m ';+' k" := (bindW m (fun _ => k))
  (at level 100, k at level 200, right associativity).

(** [prompt], [confirm] and [alert] of the window, with the user's answer. *)
Definition prompt (message : string) (answer : value) : W value :=
  emit (Prompt message) ;+ retW answer.

Definition confirm (message : string) (answer : bool) : W bool :=
  emit (Confirm message) ;+ retW answer.

Definition alert (message : string) : W unit := emit (Alert message).

(** The line feed of line 171. *)
Definition lineFeed : string := String "010" EmptyString.

Section Startup.

(** [PluralForm.makeGetter] and the selected locale, as for [init], and
    [Number] on the answers of the user; the numbers of the model are the
    integers. *)
Variable makeGetter : string -> getter.
Variable selectedLocale : string.
Variable Number : value -> Z.

(** The loop of lines 162-167, over the turns the user has taken: the money
    string of the turn that was confirmed, when there is one. *)
Fixpoint askMoney (turns : list (value * bool)) : W (option string) :=
  match turns with
  | [] => retW None
  | (answer, accepted) :: turns' =>
      let+ question := liftW (getString "howMany" Undefined Undefined) in
      let+ answer := prompt question answer in
      let amount := Num (Number answer) in
      let+ money := liftW (getString "money" amount amount) in
      let+ message := liftW (getString "confirm" (Str money) Undefined) in
      let+ ok := confirm message accepted in
      if negb ok then askMoney turns' else retW (Some money)
  end.

(** The callback of lines 151-172, run with the add-on and the window:
    whether the dialog has come to its end. *)
Definition startup (a : addon) (w : window) : W bool :=
  liftW (init makeGetter selectedLocale a None) ;+
  let+ question := liftW (getString "askName" Undefined Undefined) in
  let+ name := prompt question (nameAnswer w) in
  let+ money := askMoney (rounds w) in
  match money with
  | None => retW false
  | Some money =>
      let pair := Arr [name; Str money] in
      let+ first := liftW (getString "hereHave" pair Undefined) in
      let+ second := liftW (getString "hopeEnough" pair Undefined) in
      alert (first +:+ lineFeed +:+ second) ;+
      retW true
  end.

End Startup.

Definition is_alert (e : event) : bool :=
  match e with
  | Alert _ => true
  | _ => false
  end.

(** No turn before the end of [turns] was accepted. *)
Definition declined (turns : list (value * bool)) : bool :=
  forallb (fun turn => negb (snd turn)) turns.

(** The bundle of the add-on's dialog, and a user who asks for two items
    after declining five. *)
Definition dialogBundle : gmap string string :=
  <["askName" := "What is your name?"]>
    (<["howMany" := "How many?"]>
       (<["money" := "one item;%s items"]>
          (<["confirm" := "Is %s right?"]>
             (<["hereHave" := "Here, have %s and %2$S"]>
                (<["hopeEnough" := "%1$s, I hope %2$s is enough"]>
                   (<["pluralRule" := "1"]> ∅)))))).

Definition dialogAddon : addon :=
  fun path =>
    if String.eqb path "locales/en-US.properties" then Some dialogBundle else None.

Definition dialogWindow : window :=
  mkWindow (Str "Ann") [(Str "5", false); (Str "2", true)].

(** [Number] on the answers of the sample user. *)
Definition dialogNumber (answer : value) : Z :=
  match answer with
  | Str "5" => 5
  | Str "2" => 2
  | _ => 0
  end.

(** The store and what the window has shown when the sample dialog is
    over. *)
Definition dialogStore : store :=
  mkStore (Some dialogBundle) (Some dialogBundle) (Some (ruleGetter twoFormsIndex)).

Definition dialogShown : list event :=
  [Prompt "What is your name?";
   Prompt "How many?"; Confirm "Is 5 items right?";
   Prompt "How many?"; Confirm "Is 2 items right?";
   Alert ("Here, have Ann and 2 items" +:+ lineFeed +:+ "Ann, I hope 2 items is enough")].

(** Nothing of what was shown is an alert. *)
Definition no_alert (shown : list event) : bool :=
  forallb (fun e => negb (is_alert e)) shown.

(** ** Text that a replacement takes as it is *)

(** The code units that, after a dollar sign, make [GetSubstitution] insert
    something else than the two of them. *)
Definition dollar_code (d : ascii) : bool :=
  Ascii.eqb d "$" || Ascii.eqb d "&" || Ascii.eqb d "`" || Ascii.eqb d "'".

(** The text holds none of the sequences [$$], [$&], [$`] and [$']. *)
Fixpoint literal (text : string) : bool :=
  match text with
  | EmptyString => true
  | String c r =>
      if Ascii.eqb c "$" then
        match r with
        | EmptyString => true
        | String d _ => negb (dollar_code d) && literal r
        end
      else literal r
  end.

(** The pattern [pat] matches somewhere in [s]. *)
Fixpoint mentions (pat s : string) : bool :=
  match s with
  | EmptyString => false
  | String _ s' =>
      match match_at pat s with
      | Some _ => true
      | None => mentions pat s'
      end
  end.

(** The code unit [c] matches one of the pattern characters [body]. *)
Fixpoint meets (c : ascii) (body : string) : bool :=
  match body with
  | EmptyString => false
  | String p body' => Ascii.eqb (canonicalize p) (canonicalize c) || meets c body'
  end.

(** A string that is empty or begins with a code unit no character of
    [body] matches: no match of a pattern that goes on with [body] runs into
    it. *)
Definition breaks (body v : string) : bool :=
  match v with
  | EmptyString => true
  | String c _ => negb (meets c body)
  end.

(** Every argument's text is literal and holds no percent sign. *)
Definition verbatimArgs (args : list value) : bool :=
  forallb (fun v => literal (ToString v) && negb (occurs "%" (ToString v))) args.

(** An add-on that ships the sample bundle for [de] and nothing for
    [en-US]. *)
Definition primaryOnlyAddon : addon :=
  fun path =>
    if String.eqb path "locales/de.properties" then Some demoPrimary else None.

(** What the window shows in one turn of the loop of [startup], in the
    store [st]: the question [howMany], and the confirmation of the money
    string that belongs to the answer. *)
Definition turnShown (Number : value -> Z) (st : store) (howMany : string)
    (turn : value * bool) (shown : list event) : Prop :=
  exists money message,
    getString "money" (Num (Number (fst turn))) (Num (Number (fst turn))) st
    = (inr money, st)
    /\ getString "confirm" (Str money) Undefined st = (inr message, st)
    /\ shown = [Prompt howMany; Confirm message].

(** * Properties *)

(** ** The model at work *)

Example replace_ex1 :
  replace "%s" (Str "x") "a %S b %s" = "a x b x".
Proof. vm_compute. reflexivity. Qed.

Example replace_ex2 :
  replace "%s" (Str "[$&|$`|$'|$$|$1]") "ab%Scd" = "ab[%S|ab|cd|$|$1]cd".
Proof. vm_compute. reflexivity. Qed.

Example ToString_ex :
  ToString (Arr [Num 1; Null; Str "a"; Arr [Num (-2); Bool true]]) = "1,,a,-2,true".
Proof. vm_compute. reflexivity. Qed.

Example splitForms_ex : splitForms "one item;%s items" = ["one item"; "%s items"].
Proof. vm_compute. reflexivity. Qed.

Example init_demo :
  init demoMakeGetter "de" demoAddon None uninitialized = (inr tt, demoStore).
Proof. reflexivity. Qed.

(** ** Strings *)

Lemma append_cons (c : ascii) (s t : string) :
  String c s +:+ t = String c (s +:+ t).
Proof. reflexivity. Qed.

Lemma append_nil_l (s : string) : EmptyString +:+ s = s.
Proof. reflexivity. Qed.

Lemma append_nil_r (s : string) : s +:+ EmptyString = s.
Proof. induction s as [|c s IH]; [reflexivity|]. rewrite append_cons, IH. reflexivity. Qed.

Lemma append_assoc (s t u : string) : (s +:+ t) +:+ u = s +:+ (t +:+ u).
Proof.
  induction s as [|c s IH]; [reflexivity|].
  rewrite !append_cons, IH. reflexivity.
Qed.

Lemma length_append (s t : string) :
  String.length (s +:+ t) = String.length s + String.length t.
Proof.
  induction s as [|c s IH]; [reflexivity|].
  rewrite append_cons. cbn [String.length]. rewrite IH. reflexivity.
Qed.

Lemma occurs_append (c : ascii) (s t : string) :
  occurs c (s +:+ t) = occurs c s || occurs c t.
Proof.
  induction s as [|d s IH]; [reflexivity|].
  rewrite append_cons. cbn [occurs]. rewrite IH, orb_assoc. reflexivity.
Qed.

(** Induction on the length of a string. *)
Lemma string_length_ind (P : string -> Prop) :
  (forall s, (forall t, String.length t < String.length s -> P t) -> P s) ->
  forall s, P s.
Proof.
  intros step s.
  enough (H : forall n t, String.length t < n -> P t) by (apply (H (S (String.length s))); lia).
  induction n as [|n IH]; intros t Ht; [lia|].
  apply step. intros u Hu. apply IH. lia.
Qed.

(** ** Code units *)

Lemma canonicalize_percent (c : ascii) :
  Ascii.eqb (canonicalize "%") (canonicalize c) = true -> c = "%"%char.
Proof.
  destruct c as [[] [] [] [] [] [] [] []]; vm_compute; intros H;
    solve [reflexivity | discriminate H].
Qed.

Lemma canonicalize_percent_body (p : ascii) :
  Ascii.eqb p "%" = false -> Ascii.eqb (canonicalize p) (canonicalize "%") = false.
Proof.
  destruct p as [[] [] [] [] [] [] [] []]; vm_compute; intros H;
    solve [reflexivity | discriminate H].
Qed.

Lemma is_digit_canonicalize (c : ascii) : is_digit c = true -> canonicalize c = c.
Proof.
  destruct c as [[] [] [] [] [] [] [] []]; vm_compute; intros H;
    solve [reflexivity | discriminate H].
Qed.

Lemma is_digit_not_special (c : ascii) :
  is_digit c = true ->
  Ascii.eqb c "%" = false /\ Ascii.eqb c "$" = false /\
  Ascii.eqb c (canonicalize "s") = false.
Proof.
  destruct c as [[] [] [] [] [] [] [] []]; vm_compute; intros H;
    solve [auto | discriminate H].
Qed.

Lemma digits_dec (n : nat) : digits (dec n) = true.
Proof.
  unfold dec. generalize (Nat.to_uint n). intros d.
  induction d; cbn [NilEmpty.string_of_uint digits]; try rewrite IHd; reflexivity.
Qed.

Lemma dec_inj (n m : nat) : dec n = dec m -> n = m.
Proof.
  unfold dec. intros H.
  apply Unsigned.to_uint_inj.
  assert (Some (Nat.to_uint n) = Some (Nat.to_uint m)) as [= ->]; [|reflexivity].
  rewrite <- !NilEmpty.usu, H. reflexivity.
Qed.

Lemma digits_no_percent (s : string) : digits s = true -> occurs "%" s = false.
Proof.
  induction s as [|c s IH]; [reflexivity|]. cbn [digits occurs].
  intros [Hc Hs]%andb_true_iff.
  destruct (is_digit_not_special c Hc) as (H & _ & _).
  rewrite Ascii.eqb_sym, H, IH; auto.
Qed.

(** ** Matching *)

Lemma match_at_split (pat s m rest : string) :
  match_at pat s = Some (m, rest) ->
  s = m +:+ rest /\ String.length m = String.length pat.
Proof.
  revert s m rest. induction pat as [|p pat IH]; intros s m rest; cbn [match_at].
  - intros [= <- <-]. split; reflexivity.
  - destruct s as [|c s]; [intros [=]|].
    destruct (Ascii.eqb _ _); [|intros [=]].
    destruct (match_at pat s) as [[m' rest']|] eqn:E; [|intros [=]].
    intros [= <- <-]. destruct (IH _ _ _ E) as [-> Hlen].
    split; [reflexivity|]. cbn [String.length]. rewrite Hlen. reflexivity.
Qed.

Lemma match_at_append (pat u v m rest : string) :
  match_at pat u = Some (m, rest) ->
  match_at pat (u +:+ v) = Some (m, rest +:+ v).
Proof.
  revert u m rest. induction pat as [|p pat IH]; intros u m rest; cbn [match_at].
  - intros [= <- <-]. reflexivity.
  - destruct u as [|c u]; [intros [=]|]. rewrite append_cons.
    destruct (Ascii.eqb _ _); [|intros [=]].
    destruct (match_at pat u) as [[m' rest']|] eqn:E; [|intros [=]].
    intros [= <- <-]. rewrite (IH _ _ _ E). reflexivity.
Qed.

(** A match of text without percent sign never runs into a percent sign. *)
Lemma match_at_within (body u v m rest : string) :
  occurs "%" body = false ->
  percent_headed v ->
  match_at body (u +:+ v) = Some (m, rest) ->
  exists u', match_at body u = Some (m, u') /\ rest = u' +:+ v.
Proof.
  intros Hbody Hv. revert u m rest Hbody.
  induction body as [|p body IH]; intros u m rest Hbody.
  - cbn [match_at]. intros [= <- <-]. exists u. split; reflexivity.
  - cbn [occurs] in Hbody. apply orb_false_iff in Hbody as [Hp Hbody].
    rewrite Ascii.eqb_sym in Hp.
    destruct u as [|c u].
    + rewrite append_nil_l. destruct v as [|c v]; [intros [=]|].
      cbn in Hv. subst c. cbn [match_at].
      rewrite (canonicalize_percent_body p Hp). intros [=].
    + rewrite append_cons. cbn [match_at].
      destruct (Ascii.eqb (canonicalize p) (canonicalize c)); [|intros [=]].
      destruct (match_at body (u +:+ v)) as [[m' rest']|] eqn:E; [|intros [=]].
      intros [= <- <-]. destruct (IH _ _ _ Hbody E) as (u' & -> & ->).
      exists u'. split; reflexivity.
Qed.

Lemma match_at_not_percent (body : string) (c : ascii) (s : string) :
  Ascii.eqb "%" c = false -> match_at (String "%" body) (String c s) = None.
Proof.
  intros Hc. cbn [match_at].
  destruct (Ascii.eqb (canonicalize "%") (canonicalize c)) eqn:E; [|reflexivity].
  apply canonicalize_percent in E. subst c. discriminate Hc.
Qed.

(** ** The scan *)

Lemma replace_from_skip (pat r u b s : string) :
  replace_from pat r (String.length u) b (u +:+ s) = replace_from pat r 0 (b +:+ u) s.
Proof.
  revert b. induction u as [|c u IH]; intros b.
  - cbn [String.length]. rewrite append_nil_l, append_nil_r. reflexivity.
  - rewrite append_cons. cbn [String.length replace_from].
    rewrite IH, append_assoc. reflexivity.
Qed.

(** At a match the scan emits the substitution and goes on after the match. *)
Lemma replace_from_match (p : ascii) (pat r b s m rest : string) :
  match_at (String p pat) s = Some (m, rest) ->
  replace_from (String p pat) r 0 b s
  = GetSubstitution m b rest r +:+ replace_from (String p pat) r 0 (b +:+ m) rest.
Proof.
  intros E. destruct (match_at_split _ _ _ _ E) as [-> Hlen].
  destruct m as [|c m]; [discriminate Hlen|].
  rewrite append_cons in *. cbn [replace_from]. rewrite E.
  cbn [String.length]. rewrite Nat.sub_succ, Nat.sub_0_r, replace_from_skip, append_assoc.
  reflexivity.
Qed.

(** Where nothing matches the scan copies one code unit. *)
Lemma replace_from_no_match (pat r b : string) (c : ascii) (s : string) :
  match_at pat (String c s) = None ->
  replace_from pat r 0 b (String c s)
  = String c (replace_from pat r 0 (b +:+ String c EmptyString) s).
Proof. intros E. cbn [replace_from]. rewrite E. reflexivity. Qed.

Lemma GetSubstitution_plain (m b a r : string) :
  occurs "$" r = false -> GetSubstitution m b a r = r.
Proof.
  induction r as [|c r IH]; [reflexivity|]. cbn [occurs GetSubstitution].
  intros [Hc Hr]%orb_false_iff. rewrite Ascii.eqb_sym, Hc, IH; auto.
Qed.

(** With a replacement text free of dollar signs the scan does not depend
    on what it has passed. *)
Lemma replace_from_before (pat r : string) (k : nat) (b b' s : string) :
  occurs "$" r = false ->
  replace_from pat r k b s = replace_from pat r k b' s.
Proof.
  intros Hr. revert k b b'. induction s as [|c s IH]; intros k b b'; [reflexivity|].
  cbn [replace_from]. destruct k as [|k]; [|apply IH].
  destruct (match_at pat (String c s)) as [[m rest]|].
  - rewrite !GetSubstitution_plain by assumption. f_equal. apply IH.
  - f_equal. apply IH.
Qed.

(** Text without percent sign is copied. *)
Lemma replace_from_copy (body r b s rest : string) :
  occurs "%" s = false ->
  replace_from (String "%" body) r 0 b (s +:+ rest)
  = s +:+ replace_from (String "%" body) r 0 (b +:+ s) rest.
Proof.
  revert b. induction s as [|c s IH]; intros b Hs.
  - rewrite append_nil_l, append_nil_r. reflexivity.
  - cbn [occurs] in Hs. apply orb_false_iff in Hs as [Hc Hs].
    rewrite !append_cons, replace_from_no_match by (apply match_at_not_percent, Hc).
    rewrite IH by assumption. rewrite append_assoc. reflexivity.
Qed.

(** A placeholder the pattern does not match is copied. *)
Lemma replace_from_other (body r b tail rest : string) :
  occurs "%" tail = false ->
  match_at (String "%" body) (String "%" tail +:+ rest) = None ->
  replace_from (String "%" body) r 0 b (String "%" tail +:+ rest)
  = String "%" tail +:+ replace_from (String "%" body) r 0 (b +:+ String "%" tail) rest.
Proof.
  intros Htail E. rewrite append_cons in *.
  rewrite replace_from_no_match by assumption.
  rewrite replace_from_copy by assumption. rewrite append_assoc. reflexivity.
Qed.

(** What the scan does before a percent sign does not depend on what
    follows it, up to the substitutions' view of the text after a match. *)
Lemma replace_from_prefix (body r u v : string) :
  occurs "%" body = false ->
  percent_headed v ->
  forall b, exists out,
    replace_from (String "%" body) r 0 b (u +:+ v)
    = out +:+ replace_from (String "%" body) r 0 (b +:+ u) v.
Proof.
  intros Hbody Hv. induction u as [u IH] using string_length_ind. intros b.
  destruct u as [|c u].
  - exists EmptyString. rewrite append_nil_l, append_nil_r. reflexivity.
  - destruct (match_at (String "%" body) (String c u +:+ v)) as [[m rest]|] eqn:E.
    + rewrite (replace_from_match _ _ _ _ _ _ _ E).
      assert (exists u', String c u = m +:+ u' /\ rest = u' +:+ v) as (u' & Hu & ->).
      { rewrite append_cons in E. cbn [match_at] in E.
        destruct (Ascii.eqb (canonicalize "%") (canonicalize c)); [|discriminate E].
        destruct (match_at body (u +:+ v)) as [[m' rest']|] eqn:E'; [|discriminate E].
        injection E as <- <-.
        destruct (match_at_within _ _ _ _ _ Hbody Hv E') as (u' & Hm & ->).
        apply match_at_split in Hm as [-> _].
        exists u'. split; reflexivity. }
      destruct (match_at_split _ _ _ _ E) as [_ Hlen]. cbn [String.length] in Hlen.
      destruct (IH u') with (b := b +:+ m) as [out Hout].
      { rewrite Hu, length_append. lia. }
      exists (GetSubstitution m b (u' +:+ v) r +:+ out).
      rewrite Hout, Hu, !append_assoc. reflexivity.
    + rewrite append_cons in *. rewrite (replace_from_no_match _ _ _ _ _ E).
      destruct (IH u) with (b := b +:+ String c EmptyString) as [out Hout].
      { cbn [String.length]. lia. }
      exists (String c out). rewrite Hout, append_cons, append_assoc. reflexivity.
Qed.

(** A match that begins before a percent sign ends before it. *)
Lemma match_at_percent_within (body : string) (c : ascii) (u v m rest : string) :
  occurs "%" body = false ->
  percent_headed v ->
  match_at (String "%" body) (String c u +:+ v) = Some (m, rest) ->
  exists u', match_at (String "%" body) (String c u) = Some (m, u') /\ rest = u' +:+ v.
Proof.
  intros Hbody Hv E. rewrite append_cons in E. cbn [match_at] in E |- *.
  destruct (Ascii.eqb (canonicalize "%") (canonicalize c)); [|discriminate E].
  destruct (match_at body (u +:+ v)) as [[m' rest']|] eqn:E'; [|discriminate E].
  injection E as <- <-.
  destruct (match_at_within _ _ _ _ _ Hbody Hv E') as (u' & -> & ->).
  exists u'. split; reflexivity.
Qed.

(** With a replacement text free of dollar signs, the scan of a text
    followed by a percent sign is the scan of the one followed by the scan of
    the other. *)
Lemma replace_from_append (body r u v b : string) :
  occurs "$" r = false ->
  occurs "%" body = false ->
  percent_headed v ->
  replace_from (String "%" body) r 0 b (u +:+ v)
  = replace_from (String "%" body) r 0 b u +:+ replace_from (String "%" body) r 0 b v.
Proof.
  intros Hr Hbody Hv. revert b. induction u as [u IH] using string_length_ind. intros b.
  destruct u as [|c u]; [reflexivity|].
  destruct (match_at (String "%" body) (String c u +:+ v)) as [[m rest]|] eqn:E.
  - destruct (match_at_percent_within _ _ _ _ _ _ Hbody Hv E) as (u' & E' & ->).
    rewrite (replace_from_match _ _ _ _ _ _ _ E), (replace_from_match _ _ _ _ _ _ _ E').
    rewrite !GetSubstitution_plain by assumption.
    destruct (match_at_split _ _ _ _ E') as [Hu Hlen]. cbn [String.length] in Hlen.
    rewrite IH, append_assoc.
    + f_equal. f_equal. apply replace_from_before, Hr.
    + rewrite Hu, length_append. lia.
  - assert (E' : match_at (String "%" body) (String c u) = None).
    { destruct (match_at (String "%" body) (String c u)) as [[m rest]|] eqn:E'; [|reflexivity].
      rewrite (match_at_append _ _ v _ _ E') in E. discriminate E. }
    rewrite append_cons in *.
    rewrite (replace_from_no_match _ _ _ _ _ E), (replace_from_no_match _ _ _ _ _ E').
    rewrite IH, append_cons by (cbn [String.length]; lia).
    f_equal. f_equal. apply replace_from_before, Hr.
Qed.

(** ** Placeholders and the two patterns *)

Lemma positional_eq (index : nat) :
  positional index = String "%" (dec (index + 1) +:+ "$S").
Proof. reflexivity. Qed.

Lemma letterS_canonicalize (upper : bool) : canonicalize (letterS upper) = "S"%char.
Proof. destruct upper; reflexivity. Qed.

Lemma match_at_digits (a b p q : string) :
  digits a = true -> digits b = true ->
  match_at (a +:+ String "$" p) (b +:+ String "$" q)
  = if String.eqb a b then
      match match_at p q with
      | Some (m, rest) => Some (b +:+ String "$" m, rest)
      | None => None
      end
    else None.
Proof.
  revert b. induction a as [|d a IH]; intros [|e b] Ha Hb;
    cbn [digits] in Ha, Hb; rewrite ?append_nil_l, ?append_cons; cbn [match_at String.eqb].
  - change (Ascii.eqb (canonicalize "$") (canonicalize "$")) with true. cbn iota.
    destruct (match_at p q) as [[m rest]|]; reflexivity.
  - apply andb_true_iff in Hb as [He _].
    rewrite (is_digit_canonicalize e He).
    destruct (is_digit_not_special e He) as (_ & H & _).
    change (canonicalize "$") with "$"%char. rewrite Ascii.eqb_sym, H. reflexivity.
  - apply andb_true_iff in Ha as [Hd _].
    rewrite (is_digit_canonicalize d Hd).
    destruct (is_digit_not_special d Hd) as (_ & H & _).
    change (canonicalize "$") with "$"%char. rewrite H. reflexivity.
  - apply andb_true_iff in Ha as [Hd Ha]. apply andb_true_iff in Hb as [He Hb].
    rewrite (is_digit_canonicalize d Hd), (is_digit_canonicalize e He).
    destruct (Ascii.eqb d e); [|reflexivity].
    rewrite (IH b Ha Hb). destruct (String.eqb a b); [|reflexivity].
    destruct (match_at p q) as [[m rest]|]; reflexivity.
Qed.

Lemma match_bare_bare (upper : bool) (rest : string) :
  match_at "%s" (bareText upper +:+ rest) = Some (bareText upper, rest).
Proof. destruct upper; reflexivity. Qed.

Lemma match_bare_positional (n : nat) (upper : bool) (rest : string) :
  match_at "%s" (positionalText n upper +:+ rest) = None.
Proof.
  unfold positionalText. rewrite append_cons. cbn [match_at].
  change (Ascii.eqb (canonicalize "%") (canonicalize "%")) with true. cbn iota.
  pose proof (digits_dec n) as Hd. destruct (dec n) as [|d ds].
  - reflexivity.
  - cbn [digits] in Hd. apply andb_true_iff in Hd as [Hd _].
    rewrite !append_cons. cbn [match_at].
    rewrite (is_digit_canonicalize d Hd).
    destruct (is_digit_not_special d Hd) as (_ & _ & H).
    rewrite Ascii.eqb_sym, H. reflexivity.
Qed.

Lemma match_positional_bare (index : nat) (upper : bool) (rest : string) :
  match_at (positional index) (bareText upper +:+ rest) = None.
Proof.
  rewrite positional_eq. unfold bareText. rewrite !append_cons. cbn [match_at].
  change (Ascii.eqb (canonicalize "%") (canonicalize "%")) with true. cbn iota.
  pose proof (digits_dec (index + 1)) as Hd. destruct (dec (index + 1)) as [|d ds].
  - destruct upper; reflexivity.
  - cbn [digits] in Hd. apply andb_true_iff in Hd as [Hd _].
    rewrite !append_cons. cbn [match_at].
    rewrite (is_digit_canonicalize d Hd), letterS_canonicalize.
    destruct (is_digit_not_special d Hd) as (_ & _ & H).
    change (canonicalize "s") with "S"%char in H. rewrite H. reflexivity.
Qed.

Lemma match_positional_positional (index n : nat) (upper : bool) (rest : string) :
  match_at (positional index) (positionalText n upper +:+ rest)
  = if Nat.eqb n (index + 1) then Some (positionalText n upper, rest) else None.
Proof.
  rewrite positional_eq. unfold positionalText. rewrite append_cons. cbn [match_at].
  change (Ascii.eqb (canonicalize "%") (canonicalize "%")) with true. cbn iota.
  rewrite append_assoc, append_cons.
  change "$S" with (String "$" "S").
  rewrite match_at_digits by apply digits_dec.
  destruct (Nat.eqb_spec n (index + 1)) as [->|Hn].
  - rewrite String.eqb_refl. destruct upper; reflexivity.
  - destruct (String.eqb_spec (dec (index + 1)) (dec n)) as [H|_]; [|reflexivity].
    apply dec_inj in H. congruence.
Qed.

Lemma percent_free_positional_tail (n : nat) (upper : bool) :
  occurs "%" (dec n +:+ String "$" (String (letterS upper) EmptyString)) = false.
Proof.
  rewrite occurs_append, (digits_no_percent _ (digits_dec n)). destruct upper; reflexivity.
Qed.

Lemma percent_free_positional_body (index : nat) :
  occurs "%" (dec (index + 1) +:+ "$S") = false.
Proof. apply (percent_free_positional_tail (index + 1) true). Qed.

(** ** The passes on unambiguous templates *)

Lemma plain_dollar (r : string) : plain r = true -> occurs "$" r = false.
Proof. unfold plain. intros [H _]%andb_true_iff. apply negb_true_iff, H. Qed.

Lemma plain_percent (r : string) : plain r = true -> occurs "%" r = false.
Proof. unfold plain. intros [_ H]%andb_true_iff. apply negb_true_iff, H. Qed.

(** The bare pass fills every bare placeholder and nothing else. *)
Lemma replace_bare_render (r b : string) (ts : list token) :
  occurs "$" r = false ->
  unambiguous ts = true ->
  replace_from "%s" r 0 b (render ts) = render (map (fillBare r) ts).
Proof.
  intros Hr. revert b. induction ts as [|t ts IH]; intros b Hts; [reflexivity|].
  cbn [unambiguous forallb] in Hts. apply andb_true_iff in Hts as [Ht Hts].
  cbn [render map]. destruct t as [text|upper|n upper]; cbn [tokenText fillBare].
  - apply negb_true_iff in Ht. rewrite replace_from_copy by assumption.
    rewrite IH by assumption. reflexivity.
  - rewrite (replace_from_match _ _ _ _ _ _ _ (match_bare_bare upper _)).
    rewrite GetSubstitution_plain, IH by assumption. reflexivity.
  - unfold positionalText at 1.
    rewrite replace_from_other.
    + rewrite IH by assumption. reflexivity.
    + apply percent_free_positional_tail.
    + apply match_bare_positional.
Qed.

(** The positional pass for [index] fills every placeholder of that index
    and nothing else. *)
Lemma replace_positional_render (index : nat) (r b : string) (ts : list token) :
  occurs "$" r = false ->
  unambiguous ts = true ->
  replace_from (positional index) r 0 b (render ts)
  = render (map (fillPositional index r) ts).
Proof.
  intros Hr. revert b. induction ts as [|t ts IH]; intros b Hts; [reflexivity|].
  cbn [unambiguous forallb] in Hts. apply andb_true_iff in Hts as [Ht Hts].
  cbn [render map]. destruct t as [text|upper|n upper]; cbn [tokenText fillPositional].
  - apply negb_true_iff in Ht. rewrite positional_eq.
    rewrite replace_from_copy by assumption.
    rewrite <- positional_eq, IH by assumption. reflexivity.
  - pose proof (match_positional_bare index upper (render ts)) as E.
    rewrite positional_eq in E |- *. unfold bareText at 1.
    rewrite replace_from_other; [|destruct upper; reflexivity|exact E].
    rewrite <- positional_eq, IH by assumption. reflexivity.
  - pose proof (match_positional_positional index n upper (render ts)) as E.
    destruct (Nat.eqb n (index + 1)).
    + rewrite positional_eq in E |- *.
      rewrite (replace_from_match _ _ _ _ _ _ _ E).
      rewrite GetSubstitution_plain by assumption.
      rewrite <- positional_eq, IH by assumption. reflexivity.
    + rewrite positional_eq in E |- *. unfold positionalText at 1.
      rewrite replace_from_other; [|apply percent_free_positional_tail|exact E].
      rewrite <- positional_eq, IH by assumption. reflexivity.
Qed.

Lemma unambiguous_fillBare (r : string) (ts : list token) :
  occurs "%" r = false ->
  unambiguous ts = true -> unambiguous (map (fillBare r) ts) = true.
Proof.
  intros Hr. induction ts as [|t ts IH]; [reflexivity|].
  cbn [unambiguous forallb map]. intros [Ht Hts]%andb_true_iff.
  apply andb_true_iff. split; [|apply IH, Hts].
  destruct t; cbn [fillBare]; try assumption. rewrite Hr. reflexivity.
Qed.

Lemma unambiguous_fillPositional (index : nat) (r : string) (ts : list token) :
  occurs "%" r = false ->
  unambiguous ts = true -> unambiguous (map (fillPositional index r) ts) = true.
Proof.
  intros Hr. induction ts as [|t ts IH]; [reflexivity|].
  cbn [unambiguous forallb map]. intros [Ht Hts]%andb_true_iff.
  apply andb_true_iff. split; [|apply IH, Hts].
  destruct t as [text|upper|n upper]; cbn [fillPositional]; try assumption.
  destruct (Nat.eqb n (index + 1)); [|reflexivity]. rewrite Hr. reflexivity.
Qed.

Lemma forEach_render (args : list value) (index : nat) (ts : list token) :
  plainArgs args = true ->
  unambiguous ts = true ->
  forEach args index (render ts) = render (fillEach args index ts)
  /\ unambiguous (fillEach args index ts) = true.
Proof.
  revert index ts. induction args as [|v args IH]; intros index ts Hargs Hts.
  - split; [reflexivity|assumption].
  - cbn [plainArgs forallb] in Hargs. apply andb_true_iff in Hargs as [Hv Hargs].
    cbn [forEach fillEach]. unfold replace.
    rewrite replace_positional_render by (auto using plain_dollar).
    apply IH; [assumption|].
    apply unambiguous_fillPositional; auto using plain_percent.
Qed.

Lemma fillBare_fillPositional (r0 : string) (index : nat) (r : string) (ts : list token) :
  map (fillBare r0) (map (fillPositional index r) ts)
  = map (fillPositional index r) (map (fillBare r0) ts).
Proof.
  rewrite !map_map. apply map_ext. intros [text|upper|n upper]; cbn; try reflexivity.
  destruct (Nat.eqb n (index + 1)); reflexivity.
Qed.

Lemma fillBare_fillEach (r0 : string) (args : list value) (index : nat) (ts : list token) :
  map (fillBare r0) (fillEach args index ts) = fillEach args index (map (fillBare r0) ts).
Proof.
  revert index ts. induction args as [|v args IH]; intros index ts; [reflexivity|].
  cbn [fillEach]. rewrite IH, fillBare_fillPositional. reflexivity.
Qed.

(** ** A placeholder inside arbitrary text *)

Lemma percent_headed_positionalText (n : nat) (upper : bool) (post : string) :
  percent_headed (positionalText n upper +:+ post).
Proof. reflexivity. Qed.

Lemma percent_headed_bareText (upper : bool) (post : string) :
  percent_headed (bareText upper +:+ post).
Proof. reflexivity. Qed.

(** A pass whose pattern does not match a positional placeholder leaves it
    where it is. *)
Lemma replace_keeps_positional (body r : string) (n : nat) (upper : bool)
    (pre post b : string) :
  occurs "%" body = false ->
  match_at (String "%" body) (positionalText n upper +:+ post) = None ->
  exists pre',
    replace_from (String "%" body) r 0 b (pre +:+ positionalText n upper +:+ post)
    = pre' +:+ positionalText n upper
      +:+ replace_from (String "%" body) r 0 (b +:+ pre +:+ positionalText n upper) post.
Proof.
  intros Hbody E.
  destruct (replace_from_prefix body r pre (positionalText n upper +:+ post) Hbody
              (percent_headed_positionalText n upper post) b) as [pre' Hpre].
  exists pre'. rewrite Hpre. f_equal.
  unfold positionalText in *.
  rewrite replace_from_other by (auto using percent_free_positional_tail).
  rewrite append_assoc. reflexivity.
Qed.

Lemma forEach_keeps_positional (args : list value) (index n : nat) (upper : bool)
    (pre post : string) :
  index + List.length args < n ->
  exists pre' post',
    forEach args index (pre +:+ positionalText n upper +:+ post)
    = pre' +:+ positionalText n upper +:+ post'.
Proof.
  revert index pre post. induction args as [|v args IH]; intros index pre post Hn.
  - exists pre, post. reflexivity.
  - cbn [forEach List.length] in *. unfold replace. rewrite positional_eq.
    destruct (replace_keeps_positional (dec (index + 1) +:+ "$S") (ToString v) n upper
                pre post EmptyString) as [pre' Hpre].
    + apply percent_free_positional_body.
    + rewrite <- positional_eq, match_positional_positional.
      destruct (Nat.eqb_spec n (index + 1)); [lia|reflexivity].
    + rewrite Hpre. apply IH. lia.
Qed.

Lemma forEach_literal_positional (args : list value) (index n : nat) (upper : bool)
    (pre post : string) :
  literalArgs args = true ->
  index + List.length args < n ->
  forEach args index (pre +:+ positionalText n upper +:+ post)
  = forEach args index pre +:+ positionalText n upper +:+ forEach args index post.
Proof.
  revert index pre post. induction args as [|v args IH]; intros index pre post Hargs Hn.
  - reflexivity.
  - cbn [literalArgs forallb] in Hargs. apply andb_true_iff in Hargs as [Hv Hargs].
    apply negb_true_iff in Hv.
    cbn [forEach List.length] in *. unfold replace. rewrite positional_eq.
    rewrite replace_from_append;
      [|assumption|apply percent_free_positional_body|apply percent_headed_positionalText].
    unfold positionalText at 1.
    rewrite replace_from_other.
    + rewrite (replace_from_before _ _ _ _ EmptyString post Hv).
      rewrite <- positional_eq. apply IH; [assumption|lia].
    + apply percent_free_positional_tail.
    + rewrite <- positional_eq.
      pose proof (match_positional_positional index n upper post) as E.
      destruct (Nat.eqb_spec n (index + 1)); [lia|exact E].
Qed.

(** The bare pass around a positional placeholder. *)
Lemma replace_bare_keeps_positional (r : string) (n : nat) (upper : bool)
    (pre post : string) :
  exists pre' post',
    replace_from "%s" r 0 EmptyString (pre +:+ positionalText n upper +:+ post)
    = pre' +:+ positionalText n upper +:+ post'.
Proof.
  destruct (replace_keeps_positional "s" r n upper pre post EmptyString) as [pre' Hpre];
    [reflexivity|apply match_bare_positional|].
  eexists _, _. exact Hpre.
Qed.

Lemma replace_bare_literal_positional (r : string) (n : nat) (upper : bool)
    (pre post : string) :
  occurs "$" r = false ->
  replace_from "%s" r 0 EmptyString (pre +:+ positionalText n upper +:+ post)
  = replace_from "%s" r 0 EmptyString pre +:+ positionalText n upper
    +:+ replace_from "%s" r 0 EmptyString post.
Proof.
  intros Hr.
  rewrite replace_from_append;
    [|assumption|reflexivity|apply percent_headed_positionalText].
  unfold positionalText at 1.
  rewrite replace_from_other;
    [|apply percent_free_positional_tail|apply match_bare_positional].
  rewrite (replace_from_before _ _ _ _ EmptyString post Hr). reflexivity.
Qed.

Lemma replace_bare_literal_bare (r : string) (upper : bool) (pre post : string) :
  occurs "$" r = false ->
  replace_from "%s" r 0 EmptyString (pre +:+ bareText upper +:+ post)
  = replace_from "%s" r 0 EmptyString pre +:+ r
    +:+ replace_from "%s" r 0 EmptyString post.
Proof.
  intros Hr.
  rewrite replace_from_append;
    [|assumption|reflexivity|apply percent_headed_bareText].
  rewrite (replace_from_match _ _ _ _ _ _ _ (match_bare_bare upper post)).
  rewrite GetSubstitution_plain by assumption.
  rewrite (replace_from_before _ _ _ _ EmptyString post Hr). reflexivity.
Qed.

Lemma replace_positional_literal_same (index : nat) (r : string) (upper : bool)
    (pre post : string) :
  occurs "$" r = false ->
  replace_from (positional index) r 0 EmptyString
    (pre +:+ positionalText (index + 1) upper +:+ post)
  = replace_from (positional index) r 0 EmptyString pre +:+ r
    +:+ replace_from (positional index) r 0 EmptyString post.
Proof.
  intros Hr.
  pose proof (match_positional_positional index (index + 1) upper post) as E.
  rewrite Nat.eqb_refl in E. rewrite positional_eq in E |- *.
  rewrite replace_from_append;
    [|assumption|apply percent_free_positional_body|apply percent_headed_positionalText].
  rewrite (replace_from_match _ _ _ _ _ _ _ E).
  rewrite GetSubstitution_plain by assumption.
  rewrite (replace_from_before _ _ _ _ EmptyString post Hr). reflexivity.
Qed.

(** * The claims *)

(** ** Looking a name up *)

Lemma lookupString_eq (name : string) (st : store) :
  lookupString name st
  = match tableLookup (bundle st) name with
    | Some template => (inr template, st)
    | None =>
        match tableLookup (fallback st) name with
        | Some template => (inr template, st)
        | None =>
            (inl (match fallback st with
                  | Some _ => MissingKey name
                  | None => TypeError
                  end), st)
        end
    end.
Proof.
  unfold lookupString, try_catch, bind, read, GetStringFromName, tableLookup, ret, throw.
  destruct (bundle st) as [p|]; [destruct (p !! name)|]; try reflexivity;
    destruct (fallback st) as [f|]; try reflexivity; destruct (f !! name); reflexivity.
Qed.

Lemma getString_eq (name : string) (args pluralNum : value) (st : store) :
  getString name args pluralNum st
  = match lookupString name st with
    | (inr template, st') => format args pluralNum template st'
    | (inl e, st') => (inl e, st')
    end.
Proof. reflexivity. Qed.

(** [getString] in terms of the two bundles. *)
Lemma getString_resolve (name : string) (args pluralNum : value) (st : store) :
  getString name args pluralNum st
  = match tableLookup (bundle st) name with
    | Some template => format args pluralNum template st
    | None =>
        match tableLookup (fallback st) name with
        | Some template => format args pluralNum template st
        | None =>
            (inl (match fallback st with
                  | Some _ => MissingKey name
                  | None => TypeError
                  end), st)
        end
    end.
Proof.
  rewrite getString_eq, lookupString_eq.
  destruct (tableLookup (bundle st) name); [reflexivity|].
  destruct (tableLookup (fallback st) name); reflexivity.
Qed.

(** C1, amended. [getString] resolves the name in the primary bundle first
    and in the fallback bundle only when the primary one has no template for
    it; the template found is the one that is formatted, the primary bundle's
    when that defines the name.  A name that neither bundle defines makes the
    call throw, whatever the arguments: no string is returned, and the
    exception is [MissingKey] when there is a fallback bundle and a
    [TypeError] when there is none. *)
Theorem getString_lookup_order (name : string) (args pluralNum : value) (st : store) :
  getString name args pluralNum st
  = match tableLookup (bundle st) name with
    | Some template => format args pluralNum template st
    | None =>
        match tableLookup (fallback st) name with
        | Some template => format args pluralNum template st
        | None =>
            (inl (match fallback st with
                  | Some _ => MissingKey name
                  | None => TypeError
                  end), st)
        end
    end.
Proof. apply getString_resolve. Qed.

(** ** Reading without writing *)

Lemma pickPlural_store (pluralNum : value) (str : string) (st : store) :
  snd (pickPlural pluralNum str st) = st.
Proof.
  unfold pickPlural, bind, read, lift, throw, ret.
  destruct (negb (is_null pluralNum)); [|reflexivity].
  destruct (plural st); reflexivity.
Qed.

Lemma format_store (args pluralNum : value) (template : string) (st : store) :
  snd (format args pluralNum template st) = st.
Proof.
  unfold format, bind. pose proof (pickPlural_store pluralNum template st) as H.
  destruct (pickPlural pluralNum template st) as [[e|str] st']; cbn [snd] in *;
    subst st'; reflexivity.
Qed.

Lemma getString_store (name : string) (args pluralNum : value) (st : store) :
  snd (getString name args pluralNum st) = st.
Proof.
  rewrite getString_resolve.
  destruct (tableLookup (bundle st) name); [apply format_store|].
  destruct (tableLookup (fallback st) name); [apply format_store|reflexivity].
Qed.


(** C7. A name that the primary bundle does not define and the fallback
    bundle does: called without arguments and without a number, [getString]
    returns the fallback bundle's template as it is. *)
Theorem getString_fallback_unmodified (st : store) (f : gmap string string)
    (name template : string) (args pluralNum : value) :
  tableLookup (bundle st) name = None ->
  fallback st = Some f ->
  f !! name = Some template ->
  is_null args = true ->
  is_null pluralNum = true ->
  getString name args pluralNum st = (inr template, st).
Proof.
  intros Hp Hf Hname Hargs Hplural.
  rewrite getString_resolve, Hp, Hf. cbn [tableLookup]. rewrite Hname.
  unfold format, pickPlural, fillArgs, bind, ret. rewrite Hargs, Hplural. reflexivity.
Qed.

Lemma getString_fallback_unmodified_witness :
  getString "hopeEnough" Undefined Undefined demoStore
  = (inr "%1$s, I hope %2$s is enough", demoStore).
Proof.
  apply (getString_fallback_unmodified demoStore demoFallback); reflexivity.
Defined.

(** ** Plural forms *)

(** C3. With the two-form rule whose boundary is the quantity 1 and a
    template of the two forms [one item] and [%s items]: the quantity 5
    selects the second form and is substituted into it, the quantity 1
    selects the first form.  The form is selected first, and the arguments
    are substituted into the selected form only. *)
Theorem getString_plural_then_args (st : store) (name : string) :
  plural st = Some (ruleGetter twoFormsIndex) ->
  lookupString name st = (inr "one item;%s items", st) ->
  getString name (Num 5) (Num 5) st = (inr "5 items", st)
  /\ getString name (Num 1) (Num 1) st = (inr "one item", st)
  /\ forall args quantity : value,
       is_null quantity = false ->
       getString name args quantity st
       = (inr (fillArgs args
                 (match twoFormsIndex quantity with
                  | 0 => "one item"
                  | _ => "%s items"
                  end)), st).
Proof.
  intros Hplural Hlookup.
  assert (H : forall args quantity : value,
             is_null quantity = false ->
             getString name args quantity st
             = (inr (fillArgs args
                       (match twoFormsIndex quantity with
                        | 0 => "one item"
                        | _ => "%s items"
                        end)), st)).
  { intros args quantity Hq.
    rewrite getString_eq, Hlookup.
    unfold format, pickPlural. rewrite Hq. cbn [negb].
    unfold bind, read, lift, ret. rewrite Hplural. unfold ruleGetter.
    change (splitForms "one item;%s items") with ["one item"; "%s items"].
    destruct (twoFormsIndex quantity) as [|[|k]] eqn:E; try reflexivity.
    exfalso. revert E. unfold twoFormsIndex.
    destruct quantity as [| | |[|[| |]|]| |]; discriminate. }
  split; [|split; [|exact H]].
  - rewrite H by reflexivity. reflexivity.
  - rewrite H by reflexivity. reflexivity.
Qed.

Lemma getString_plural_then_args_witness :
  getString "money" (Num 5) (Num 5) demoStore = (inr "5 items", demoStore)
  /\ getString "money" (Num 1) (Num 1) demoStore = (inr "one item", demoStore)
  /\ getString "money" (Str "no") (Num 0) demoStore = (inr "no items", demoStore).
Proof.
  destruct (getString_plural_then_args demoStore "money") as (H5 & H1 & Hany);
    [reflexivity|reflexivity|].
  split; [exact H5|split; [exact H1|]].
  exact (Hany (Str "no") (Num 0) eq_refl).
Defined.

(** ** Initialization *)

Section InitOutcome.

Variable makeGetter : string -> getter.
Variable selectedLocale : string.
Variable a : addon.
Variable getAlternate : option (string -> string).

Lemma init_eq (st0 : store) :
  init makeGetter selectedLocale a getAlternate st0
  = let reference := getBundle a "en-US" in
    match tableLookup (primaryBundle selectedLocale a getAlternate) "pluralRule" with
    | Some rule => (inr tt, mkStore (primaryBundle selectedLocale a getAlternate) reference (Some (makeGetter rule)))
    | None =>
        match tableLookup reference "pluralRule" with
        | Some rule => (inr tt, mkStore (primaryBundle selectedLocale a getAlternate) reference (Some (makeGetter rule)))
        | None =>
            (inl (match reference with
                  | Some _ => MissingKey "pluralRule"
                  | None => TypeError
                  end), mkStore (primaryBundle selectedLocale a getAlternate) reference (plural st0))
        end
    end.
Proof.
  unfold init, bind at 1 2, write. cbn zeta.
  assert (Hp : match getBundle a selectedLocale with
               | Some b => Some b
               | None =>
                   getBundle a
                     (match getAlternate with
                      | Some f => f
                      | None => fun _ : string => "en-US"
                      end selectedLocale)
               end = (primaryBundle selectedLocale a getAlternate)).
  { unfold primaryBundle, alternateLocale. destruct getAlternate; reflexivity. }
  rewrite Hp. unfold bind. rewrite getString_resolve.
  unfold set_fallback, set_bundle. cbn [bundle fallback plural].
  destruct (tableLookup (primaryBundle selectedLocale a getAlternate) "pluralRule"); [reflexivity|].
  destruct (tableLookup (getBundle a "en-US") "pluralRule"); reflexivity.
Qed.

(** C4, amended.  [init] installs as primary bundle the selected locale's
    bundle, else the alternate locale's, and as fallback the bundle of
    [en-US]; it then succeeds exactly when one of the two installed bundles
    defines [pluralRule].  So it throws (a [TypeError]) when none of the
    three locales has a bundle, and with no bundle for the selected locale
    and one for the alternate locale that one becomes the primary bundle,
    [init] succeeding exactly when it or the [en-US] bundle defines
    [pluralRule]. *)
Theorem init_outcome (st0 : store) :
  let result := init makeGetter selectedLocale a getAlternate st0 in
  let reference := getBundle a "en-US" in
  bundle (snd result) = (primaryBundle selectedLocale a getAlternate)
  /\ fallback (snd result) = reference
  /\ (fst result = inr tt
      <-> is_Some (tableLookup (primaryBundle selectedLocale a getAlternate) "pluralRule")
          \/ is_Some (tableLookup reference "pluralRule"))
  /\ (getBundle a selectedLocale = None ->
      getBundle a (alternateLocale selectedLocale getAlternate) = None ->
      reference = None ->
      fst result = inl TypeError)
  /\ (forall t : gmap string string,
        getBundle a selectedLocale = None ->
        getBundle a (alternateLocale selectedLocale getAlternate) = Some t ->
        bundle (snd result) = Some t
        /\ (fst result = inr tt
            <-> is_Some (t !! "pluralRule")
                \/ is_Some (tableLookup reference "pluralRule"))).
Proof.
  cbn zeta. rewrite init_eq. cbn zeta.
  assert (Hiff :
    fst (match tableLookup (primaryBundle selectedLocale a getAlternate) "pluralRule" with
         | Some rule =>
             (inr tt, mkStore (primaryBundle selectedLocale a getAlternate) (getBundle a "en-US") (Some (makeGetter rule)))
         | None =>
             match tableLookup (getBundle a "en-US") "pluralRule" with
             | Some rule =>
                 (inr tt,
                  mkStore (primaryBundle selectedLocale a getAlternate) (getBundle a "en-US") (Some (makeGetter rule)))
             | None =>
                 (inl (match getBundle a "en-US" with
                       | Some _ => MissingKey "pluralRule"
                       | None => TypeError
                       end),
                  mkStore (primaryBundle selectedLocale a getAlternate) (getBundle a "en-US") (plural st0))
             end
         end) = inr tt
    <-> is_Some (tableLookup (primaryBundle selectedLocale a getAlternate) "pluralRule")
        \/ is_Some (tableLookup (getBundle a "en-US") "pluralRule")).
  { destruct (tableLookup (primaryBundle selectedLocale a getAlternate) "pluralRule") as [rule|].
    - split; [left; eexists; reflexivity|reflexivity].
    - destruct (tableLookup (getBundle a "en-US") "pluralRule") as [rule|].
      + split; [right; eexists; reflexivity|reflexivity].
      + cbn [fst]. split; [intros [=]|].
        intros [[x [=]]|[x [=]]]. }
  split; [|split; [|split; [exact Hiff|split]]].
  - destruct (tableLookup (primaryBundle selectedLocale a getAlternate) "pluralRule"); [reflexivity|].
    destruct (tableLookup (getBundle a "en-US") "pluralRule"); reflexivity.
  - destruct (tableLookup (primaryBundle selectedLocale a getAlternate) "pluralRule"); [reflexivity|].
    destruct (tableLookup (getBundle a "en-US") "pluralRule"); reflexivity.
  - intros H1 H2 H3. unfold primaryBundle. rewrite H1, H2, H3. reflexivity.
  - intros t H1 H2.
    assert (Hp : primaryBundle selectedLocale a getAlternate = Some t)
      by (unfold primaryBundle; rewrite H1; exact H2).
    rewrite Hp in *. split; [|exact Hiff].
    destruct (tableLookup (Some t) "pluralRule"); [reflexivity|].
    destruct (tableLookup (getBundle a "en-US") "pluralRule"); reflexivity.
Qed.

End InitOutcome.

(** C4 as stated fails both ways: with no bundle for the selected locale
    [fr] nor for the alternate locale [de], [init] succeeds when [en-US] has a
    bundle; and with a bundle for the alternate locale [de], [init] throws
    when that bundle does not define [pluralRule] and [en-US] has none. *)
Lemma init_counterexample :
  (getBundle referenceOnlyAddon "fr" = None
   /\ getBundle referenceOnlyAddon "de" = None
   /\ fst (init demoMakeGetter "fr" referenceOnlyAddon (Some (fun _ => "de")) uninitialized)
      = inr tt)
  /\ (getBundle ruleLessAddon "fr" = None
      /\ is_Some (getBundle ruleLessAddon "de")
      /\ fst (init demoMakeGetter "fr" ruleLessAddon (Some (fun _ => "de")) uninitialized)
         = inl TypeError).
Proof.
  repeat split; try reflexivity. eexists; reflexivity.
Qed.

Lemma init_outcome_witness :
  fst (init demoMakeGetter "fr" (fun _ => None) None uninitialized) = inl TypeError
  /\ bundle (snd (init demoMakeGetter "fr" demoAddon (Some (fun _ => "de")) uninitialized))
     = Some demoPrimary
  /\ fst (init demoMakeGetter "fr" demoAddon (Some (fun _ => "de")) uninitialized) = inr tt.
Proof.
  destruct (init_outcome demoMakeGetter "fr" (fun _ => None) None uninitialized)
    as (_ & _ & _ & Hnone & _).
  destruct (init_outcome demoMakeGetter "fr" demoAddon (Some (fun _ => "de")) uninitialized)
    as (_ & _ & _ & _ & Halt).
  destruct (Halt demoPrimary) as [Hbundle Hiff]; [reflexivity|reflexivity|].
  split; [|split].
  - apply Hnone; reflexivity.
  - exact Hbundle.
  - apply Hiff. left. eexists. reflexivity.
Defined.

(** ** Substituting the arguments *)

(** Once the template is found and the plural form picked, [getString]
    returns what [fillArgs] makes of it. *)
Lemma getString_fillArgs (st : store) (name template str : string)
    (args pluralNum : value) :
  lookupString name st = (inr template, st) ->
  pickPlural pluralNum template st = (inr str, st) ->
  getString name args pluralNum st = (inr (fillArgs args str), st).
Proof.
  intros Hlookup Hplural. rewrite getString_eq, Hlookup.
  unfold format, bind. rewrite Hplural. reflexivity.
Qed.

Lemma pickPlural_null (pluralNum : value) (str : string) (st : store) :
  is_null pluralNum = true -> pickPlural pluralNum str st = (inr str, st).
Proof. intros H. unfold pickPlural. rewrite H. reflexivity. Qed.

Lemma literalArgs_first (args : list value) :
  literalArgs args = true -> occurs "$" (ToString (nth 0 args Undefined)) = false.
Proof.
  destruct args as [|v args]; [reflexivity|]. cbn [literalArgs forallb nth].
  intros [H _]%andb_true_iff. apply negb_true_iff, H.
Qed.

Lemma plainArgs_first (args : list value) :
  plainArgs args = true -> plain (ToString (nth 0 args Undefined)) = true.
Proof.
  destruct args as [|v args]; [reflexivity|]. cbn [plainArgs forallb nth].
  intros [H _]%andb_true_iff. exact H.
Qed.

(** C2 as stated fails for a name that is itself a placeholder: the
    positional pass that follows the bare pass fills it with the money. *)
Lemma hereHave_counterexample :
  lookupString "hereHave" demoStore = (inr "Here, have %s and %2$S", demoStore)
  /\ getString "hereHave" (Arr [Str "%2$S"; Str "5 items"]) Undefined demoStore
     = (inr "Here, have 5 items and 5 items", demoStore)
  /\ "Here, have 5 items and 5 items"
     <> "Here, have " +:+ ToString (Str "%2$S") +:+ " and " +:+ ToString (Str "5 items").
Proof.
  split; [reflexivity|]. split; [vm_compute; reflexivity|]. vm_compute. intros [=].
Qed.

(** What [fillArgs] does around a positional placeholder whose index is
    beyond the arguments. *)
Lemma fillArgs_keeps_positional (args : value) (n : nat) (upper : bool)
    (pre post : string) :
  List.length (toArray args) < n ->
  exists pre' post',
    fillArgs args (pre +:+ positionalText n upper +:+ post)
    = pre' +:+ positionalText n upper +:+ post'
    /\ (literalArgs (toArray args) = true ->
        pre' = fillArgs args pre /\ post' = fillArgs args post).
Proof.
  intros Hn. unfold fillArgs. destruct (negb (is_null args)).
  - destruct (literalArgs (toArray args)) eqn:Hlit.
    + eexists _, _. split; [|intros _; split; reflexivity].
      unfold replace.
      rewrite replace_bare_literal_positional by apply literalArgs_first, Hlit.
      apply forEach_literal_positional; [exact Hlit|lia].
    + unfold replace.
      destruct (replace_bare_keeps_positional
                  (ToString (nth 0 (toArray args) Undefined)) n upper pre post)
        as (pre1 & post1 & H1).
      rewrite H1.
      destruct (forEach_keeps_positional (toArray args) 0 n upper pre1 post1)
        as (pre2 & post2 & H2); [lia|].
      exists pre2, post2. split; [exact H2|intros [=]].
  - exists pre, post. split; [reflexivity|intros _; split; reflexivity].
Qed.

(** C5 as stated fails for the bare placeholder: with no argument at all it
    is replaced by the text [undefined], not left as it is. *)
Lemma beyond_args_counterexample :
  let st := mkStore (Some (<["greeting" := "Hello %s"]> ∅)) (Some ∅) None in
  List.length (toArray (Arr [])) = 0
  /\ getString "greeting" (Arr []) Undefined st = (inr "Hello undefined", st)
  /\ fillArgs (Arr []) "Hello %s" <> "Hello %s".
Proof. split; [reflexivity|]. split; [reflexivity|]. vm_compute. intros [=]. Qed.

(** C5, amended.  A positional placeholder [%n$S] (in either case) whose
    index [n] exceeds the number of arguments is left as it is, and the call
    returns: the string returned is the placeholder between what the passes
    make of the text before it and of the text after it, and when no
    argument's text holds a dollar sign these are exactly the substituted
    text before and the substituted text after. *)
Theorem getString_keeps_positional (st : store) (name template pre post : string)
    (n : nat) (upper : bool) (args pluralNum : value) :
  lookupString name st = (inr template, st) ->
  pickPlural pluralNum template st
  = (inr (pre +:+ positionalText n upper +:+ post), st) ->
  List.length (toArray args) < n ->
  exists pre' post',
    getString name args pluralNum st
    = (inr (pre' +:+ positionalText n upper +:+ post'), st)
    /\ (literalArgs (toArray args) = true ->
        pre' = fillArgs args pre /\ post' = fillArgs args post).
Proof.
  intros Hlookup Hplural Hn.
  rewrite (getString_fillArgs st _ _ _ _ _ Hlookup Hplural).
  destruct (fillArgs_keeps_positional args n upper pre post Hn)
    as (pre' & post' & Heq & Hlit).
  exists pre', post'. rewrite Heq. split; [reflexivity|exact Hlit].
Qed.

Lemma getString_keeps_positional_witness :
  exists pre' post',
    getString "hereHave" (Arr [Str "Ann"]) Undefined demoStore
    = (inr (pre' +:+ "%2$S" +:+ post'), demoStore)
    /\ (literalArgs [Str "Ann"] = true ->
        pre' = "Here, have Ann and " /\ post' = "").
Proof.
  apply (getString_keeps_positional demoStore "hereHave" "Here, have %s and %2$S"
           "Here, have %s and " "" 2 true (Arr [Str "Ann"]) Undefined);
    [reflexivity|reflexivity|cbn; lia].
Defined.

(** ** The two passes *)

(** C6 as stated fails on the template [%s], whose single placeholder is
    unambiguous: with a first argument that is itself a placeholder, the bare
    pass followed by the positional passes gives the second argument, the
    positional passes followed by the bare pass give the first. *)
Lemma passes_counterexample :
  let args := [Str "%2$S"; Str "x"] in
  unambiguous [Bare false] = true
  /\ render [Bare false] = "%s"
  /\ forEach args 0 (replace "%s" (nth 0 args Undefined) "%s") = "x"
  /\ replace "%s" (nth 0 args Undefined) (forEach args 0 "%s") = "%2$S".
Proof. repeat split; vm_compute; reflexivity. Qed.

(** ** No arguments at all *)

(** C9.  An empty array stays the empty array of arguments.  [fillArgs]
    then is the bare pass with [undefined] for replacement value and no
    positional pass: every bare placeholder, in either case, becomes the text
    [undefined], every positional placeholder stays, and so does text without
    percent sign. *)
Theorem fillArgs_empty_array :
  toArray (Arr []) = []
  /\ (forall str : string, fillArgs (Arr []) str = replace "%s" Undefined str)
  /\ (forall (upper : bool) (pre post : string),
        fillArgs (Arr []) (pre +:+ bareText upper +:+ post)
        = fillArgs (Arr []) pre +:+ "undefined" +:+ fillArgs (Arr []) post)
  /\ (forall (n : nat) (upper : bool) (pre post : string),
        fillArgs (Arr []) (pre +:+ positionalText n upper +:+ post)
        = fillArgs (Arr []) pre +:+ positionalText n upper +:+ fillArgs (Arr []) post)
  /\ (forall text : string,
        occurs "%" text = false -> fillArgs (Arr []) text = text)
  /\ (forall (st : store) (name template str : string) (pluralNum : value),
        lookupString name st = (inr template, st) ->
        pickPlural pluralNum template st = (inr str, st) ->
        getString name (Arr []) pluralNum st = (inr (replace "%s" Undefined str), st)).
Proof.
  assert (Hfill : forall str : string, fillArgs (Arr []) str = replace "%s" Undefined str)
    by reflexivity.
  split; [reflexivity|]. split; [exact Hfill|]. split; [|split; [|split]].
  - intros upper pre post. rewrite !Hfill. unfold replace.
    apply (replace_bare_literal_bare "undefined"). reflexivity.
  - intros n upper pre post. rewrite !Hfill. unfold replace.
    apply (replace_bare_literal_positional "undefined"). reflexivity.
  - intros text Htext. rewrite Hfill. unfold replace.
    rewrite <- (append_nil_r text) at 1.
    rewrite replace_from_copy by exact Htext. apply append_nil_r.
  - intros st name template str pluralNum Hlookup Hplural.
    rewrite <- Hfill. apply (getString_fillArgs st name template); assumption.
Qed.

Lemma fillArgs_empty_array_witness :
  fillArgs (Arr []) "Here, have " = "Here, have "
  /\ getString "hereHave" (Arr []) Undefined demoStore
     = (inr "Here, have undefined and %2$S", demoStore).
Proof.
  destruct fillArgs_empty_array as (_ & _ & _ & _ & Htext & Hget).
  split.
  - apply Htext. reflexivity.
  - exact (Hget demoStore "hereHave" "Here, have %s and %2$S" "Here, have %s and %2$S"
             Undefined eq_refl eq_refl).
Defined.

(** * Further properties of [getString] *)

(** ** The outcome of formatting *)

Lemma format_eq (args pluralNum : value) (template : string) (st : store) :
  format args pluralNum template st
  = (match (if negb (is_null pluralNum) then
              match plural st with
              | Some get => get pluralNum template
              | None => inl TypeError
              end
            else inr template) with
     | inl e => inl e
     | inr str => inr (fillArgs args str)
     end, st).
Proof.
  unfold format, pickPlural, bind, read, lift, throw, ret.
  destruct (negb (is_null pluralNum)); [|reflexivity].
  destruct (plural st) as [get|]; [|reflexivity].
  destruct (get pluralNum template); reflexivity.
Qed.

(** ** Use before [init] *)

(** X1.  In a store where [init] has installed nothing, neither bundle nor
    fallback, every call of [getString] throws a [TypeError]; and where no
    plural-form getter is installed, a call with a number throws a
    [TypeError] although the name is defined. *)
Theorem getString_before_init (st : store) (name : string) (args pluralNum : value) :
  (bundle st = None -> fallback st = None ->
   getString name args pluralNum st = (inl TypeError, st))
  /\ (forall template : string,
        plural st = None ->
        lookupString name st = (inr template, st) ->
        is_null pluralNum = false ->
        getString name args pluralNum st = (inl TypeError, st)).
Proof.
  split.
  - intros Hb Hf. rewrite getString_resolve, Hb, Hf. reflexivity.
  - intros template Hplural Hlookup Hnum.
    rewrite getString_eq, Hlookup. unfold format, pickPlural. rewrite Hnum. cbn [negb].
    unfold bind, read, throw. rewrite Hplural. reflexivity.
Qed.

Lemma getString_before_init_witness :
  getString "money" (Num 5) (Num 5) uninitialized = (inl TypeError, uninitialized)
  /\ getString "money" (Num 5) (Num 5) (mkStore (Some demoPrimary) None None)
     = (inl TypeError, mkStore (Some demoPrimary) None None).
Proof.
  split.
  - apply (getString_before_init uninitialized "money" (Num 5) (Num 5)); reflexivity.
  - apply (getString_before_init (mkStore (Some demoPrimary) None None) "money"
             (Num 5) (Num 5)) with (template := "one item;%s items"); reflexivity.
Defined.

(** ** Which bundle answers *)

(** X2.  A primary bundle that is [null] is passed over in silence: the
    [catch] of line 74 takes the [TypeError] like a missing name, and every
    call gives what it would give with the fallback bundle as primary
    bundle. *)
Theorem getString_null_bundle (f : option (gmap string string)) (g : option getter)
    (name : string) (args pluralNum : value) :
  fst (getString name args pluralNum (mkStore None f g))
  = fst (getString name args pluralNum (mkStore f f g)).
Proof.
  rewrite !getString_resolve. cbn [bundle fallback tableLookup].
  destruct (tableLookup f name) as [template|].
  - rewrite !format_eq. reflexivity.
  - destruct f; reflexivity.
Qed.

(** X3.  When the primary bundle defines the name, the fallback bundle plays
    no part: the call gives the same with any other fallback, a missing one
    included. *)
Theorem getString_primary_shadows (p : gmap string string)
    (f f' : option (gmap string string)) (g : option getter)
    (name : string) (args pluralNum : value) :
  is_Some (p !! name) ->
  fst (getString name args pluralNum (mkStore (Some p) f g))
  = fst (getString name args pluralNum (mkStore (Some p) f' g)).
Proof.
  intros [template Hname]. rewrite !getString_resolve. cbn [bundle fallback tableLookup].
  rewrite Hname, !format_eq. reflexivity.
Qed.

Lemma getString_primary_shadows_witness :
  fst (getString "hereHave" (Str "Ann") Undefined
         (mkStore (Some demoPrimary) (Some demoFallback) None))
  = fst (getString "hereHave" (Str "Ann") Undefined
           (mkStore (Some demoPrimary) None None)).
Proof.
  apply (getString_primary_shadows demoPrimary (Some demoFallback) None None).
  eexists. reflexivity.
Defined.

(** ** The shape of the arguments *)



(** ** Templates without placeholders *)

Lemma replace_percent_free (body r b text : string) :
  occurs "%" text = false ->
  replace_from (String "%" body) r 0 b text = text.
Proof.
  intros Htext. rewrite <- (append_nil_r text) at 1.
  rewrite replace_from_copy by exact Htext. apply append_nil_r.
Qed.

Lemma forEach_percent_free (args : list value) (index : nat) (text : string) :
  occurs "%" text = false -> forEach args index text = text.
Proof.
  intros Htext. revert index. induction args as [|v args IH]; intros index; [reflexivity|].
  cbn [forEach]. unfold replace. rewrite positional_eq.
  rewrite replace_percent_free by exact Htext. apply IH.
Qed.

Lemma fillArgs_percent_free (args : value) (text : string) :
  occurs "%" text = false -> fillArgs args text = text.
Proof.
  intros Htext. unfold fillArgs. destruct (negb (is_null args)); [|reflexivity].
  unfold replace. rewrite (replace_percent_free "s") by exact Htext.
  apply forEach_percent_free, Htext.
Qed.

(** X5.  A template without percent sign is returned as it is, whatever
    the arguments, dollar signs and placeholders in them included. *)
Theorem getString_no_placeholder (st : store) (name template : string)
    (args pluralNum : value) :
  lookupString name st = (inr template, st) ->
  is_null pluralNum = true ->
  occurs "%" template = false ->
  getString name args pluralNum st = (inr template, st).
Proof.
  intros Hlookup Hnum Htemplate.
  rewrite (getString_fillArgs st name template template args pluralNum Hlookup
             (pickPlural_null pluralNum template st Hnum)).
  rewrite fillArgs_percent_free by exact Htemplate. reflexivity.
Qed.

Lemma getString_no_placeholder_witness :
  getString "pluralRule" (Arr [Str "$&"; Str "%1$S"]) Undefined demoStore
  = (inr "1", demoStore).
Proof.
  apply (getString_no_placeholder demoStore "pluralRule" "1"); reflexivity.
Defined.

(** ** What every placeholder becomes *)

Lemma fillEach_fillFrom (args : list value) (index : nat) (ts : list token) :
  fillEach args index ts = map (fillFrom args index) ts.
Proof.
  revert index ts. induction args as [|v args IH]; intros index ts.
  - cbn [fillEach]. rewrite <- (map_id ts) at 1. apply map_ext.
    intros [text|upper|n upper]; try reflexivity.
    cbn [fillFrom]. destruct (n - index) as [|i]; [reflexivity|].
    cbn [argText]. destruct i; reflexivity.
  - cbn [fillEach]. rewrite IH, map_map. apply map_ext.
    intros [text|upper|n upper]; try reflexivity.
    cbn [fillPositional fillFrom].
    destruct (Nat.eqb_spec n (index + 1)) as [->|Hn].
    + replace (index + 1 - index) with 1 by lia. reflexivity.
    + cbn [fillFrom]. destruct (n - index) as [|[|i]] eqn:E.
      * replace (n - S index) with 0 by lia. reflexivity.
      * lia.
      * replace (n - S index) with (S i) by lia. reflexivity.
Qed.

Lemma fillFrom_fillBare (args : list value) (t : token) :
  fillFrom args 0 (fillBare (ToString (nth 0 args Undefined)) t) = fillToken args t.
Proof.
  destruct t as [text|upper|n upper]; try reflexivity.
  cbn [fillBare fillFrom fillToken]. rewrite Nat.sub_0_r. reflexivity.
Qed.

Lemma fillArgs_render (args : list value) (ts : list token) :
  unambiguous ts = true ->
  plainArgs args = true ->
  fillArgs (Arr args) (render ts) = render (map (fillToken args) ts).
Proof.
  intros Hts Hargs.
  pose proof (plainArgs_first args Hargs) as Hfirst.
  unfold fillArgs, toArray. cbn [is_null negb typeof_string get_length orb].
  unfold replace at 1.
  rewrite replace_bare_render; [|apply plain_dollar, Hfirst|exact Hts].
  destruct (forEach_render args 0 (map (fillBare (ToString (nth 0 args Undefined))) ts))
    as [Heach _]; [exact Hargs| |].
  { apply unambiguous_fillBare; [apply plain_percent, Hfirst|exact Hts]. }
  rewrite Heach, fillEach_fillFrom, map_map. f_equal.
  apply map_ext. intros t. apply fillFrom_fillBare.
Qed.

(** X6.  On an unambiguous template, with an array of arguments whose text
    is plain, the string returned is the template with every bare
    placeholder replaced by the text of the first argument ([undefined] when
    there is none), every positional placeholder [%n$S] with [n] from 1 to the
    number of arguments by the text of the [n]-th argument, and everything
    else, [%0$S] and the placeholders beyond the arguments included, as it
    is. *)
Theorem getString_fills_tokens (st : store) (name template : string)
    (ts : list token) (args : list value) (pluralNum : value) :
  lookupString name st = (inr template, st) ->
  pickPlural pluralNum template st = (inr (render ts), st) ->
  unambiguous ts = true ->
  plainArgs args = true ->
  getString name (Arr args) pluralNum st = (inr (render (map (fillToken args) ts)), st).
Proof.
  intros Hlookup Hplural Hts Hargs.
  rewrite (getString_fillArgs st name template (render ts) (Arr args) pluralNum
             Hlookup Hplural).
  rewrite fillArgs_render by assumption. reflexivity.
Qed.

Lemma getString_fills_tokens_witness :
  getString "hopeEnough" (Arr [Str "Ann"; Num 5; Bool true]) Undefined demoStore
  = (inr "Ann, I hope 5 is enough", demoStore).
Proof.
  apply (getString_fills_tokens demoStore "hopeEnough" "%1$s, I hope %2$s is enough"
           [Positional 1 false; Lit ", I hope "; Positional 2 false; Lit " is enough"]
           [Str "Ann"; Num 5; Bool true] Undefined); reflexivity.
Defined.

(** X7.  With at least one argument, the bare placeholder and the
    placeholder [%1$S] stand for the same text: an unambiguous template gives
    the same string when its bare placeholders are written [%1$S], for
    arguments whose text is plain.  (With an empty array they differ: the bare
    placeholder becomes [undefined], [%1$S] stays.) *)
Theorem bare_is_first_positional (ts : list token) (args : list value) :
  unambiguous ts = true ->
  plainArgs args = true ->
  args <> [] ->
  fillArgs (Arr args) (render ts) = fillArgs (Arr args) (render (map bareAsFirst ts)).
Proof.
  intros Hts Hargs Hne.
  assert (Hts' : unambiguous (map bareAsFirst ts) = true).
  { clear Hargs Hne. induction ts as [|t ts IH]; [reflexivity|].
    cbn [unambiguous forallb map] in *. apply andb_true_iff in Hts as [Ht Hts].
    apply andb_true_iff. split; [|apply IH, Hts]. destruct t; [exact Ht|reflexivity..]. }
  rewrite !fillArgs_render by assumption. rewrite map_map. f_equal.
  apply map_ext. intros [text|upper|n upper]; try reflexivity.
  destruct args as [|v args]; [congruence|]. reflexivity.
Qed.

Lemma bare_is_first_positional_witness :
  fillArgs (Arr [Str "Ann"; Str "5 items"]) "Here, have %s and %2$S"
  = fillArgs (Arr [Str "Ann"; Str "5 items"]) "Here, have %1$s and %2$S".
Proof.
  apply (bare_is_first_positional hereHaveTokens [Str "Ann"; Str "5 items"]);
    [reflexivity|reflexivity|discriminate].
Defined.

(** ** Dollar signs in an argument *)

Lemma replace_from_same_substitution (pat r r' : string) (k : nat) (b s : string) :
  (forall m b' a : string, GetSubstitution m b' a r = GetSubstitution m b' a r') ->
  replace_from pat r k b s = replace_from pat r' k b s.
Proof.
  intros Hsub. revert k b. induction s as [|c s IH]; intros k b; [reflexivity|].
  cbn [replace_from]. destruct k as [|k]; [|apply IH].
  destruct (match_at pat (String c s)) as [[m rest]|].
  - rewrite Hsub, IH. reflexivity.
  - rewrite IH. reflexivity.
Qed.

Lemma dropString_append (u s : string) : dropString (String.length u) (u +:+ s) = s.
Proof.
  induction u as [|c u IH]; [destruct s; reflexivity|].
  rewrite append_cons. cbn [String.length dropString]. exact IH.
Qed.

Lemma replace_from_matched_text (p : ascii) (pat : string) (k : nat) (b s : string) :
  replace_from (String p pat) "$&" k b s = dropString k s.
Proof.
  revert k b. induction s as [|c s IH]; intros k b; [destruct k; reflexivity|].
  cbn [replace_from]. destruct k as [|k]; [|cbn [dropString]; apply IH].
  destruct (match_at (String p pat) (String c s)) as [[m rest]|] eqn:E.
  - rewrite IH. destruct (match_at_split _ _ _ _ E) as [Hs Hlen].
    destruct m as [|d m]; [discriminate Hlen|].
    rewrite append_cons in Hs. injection Hs as <- ->.
    cbn [String.length]. rewrite Nat.sub_succ, Nat.sub_0_r, dropString_append.
    change (GetSubstitution (String c m) b rest "$&") with (String c m +:+ EmptyString).
    rewrite append_nil_r. reflexivity.
  - rewrite IH. reflexivity.
Qed.

(** X8.  The text of an argument is not inserted as it is: [replace] reads
    its dollar signs.  The argument [$&] stands for the placeholder it
    replaces, so every template comes back unchanged; and the argument [$$]
    gives one dollar sign, exactly what the argument [$] gives. *)
Theorem fillArgs_dollar (str : string) :
  fillArgs (Str "$&") str = str
  /\ fillArgs (Str "$$") str = fillArgs (Str "$") str.
Proof.
  split.
  - unfold fillArgs, toArray. cbn [is_null negb typeof_string orb nth forEach].
    unfold replace. cbn [ToString]. rewrite positional_eq.
    rewrite !replace_from_matched_text. reflexivity.
  - unfold fillArgs, toArray. cbn [is_null negb typeof_string orb nth forEach].
    unfold replace. cbn [ToString].
    rewrite (replace_from_same_substitution "%s" "$$" "$") by reflexivity.
    apply replace_from_same_substitution. reflexivity.
Qed.

(** ** More on [init] *)

(** X9.  [init] starts afresh: whether it succeeds, and with which exception
    it fails, does not depend on the store it finds; a successful [init]
    leaves a store that does not depend on it either; a failed [init] has
    replaced both bundles all the same and left the plural-form getter that
    was there; and a second [init] right after the first changes nothing. *)
Theorem init_overwrites (makeGetter : string -> getter) (selectedLocale : string)
    (a : addon) (getAlternate : option (string -> string)) (st0 st1 : store) :
  let run := init makeGetter selectedLocale a getAlternate in
  fst (run st0) = fst (run st1)
  /\ bundle (snd (run st0)) = bundle (snd (run st1))
  /\ fallback (snd (run st0)) = fallback (snd (run st1))
  /\ match fst (run st0) with
     | inr _ => snd (run st0) = snd (run st1)
     | inl _ => plural (snd (run st0)) = plural st0
     end
  /\ run (snd (run st0)) = run st0.
Proof.
  cbn zeta. rewrite !init_eq. cbn zeta.
  destruct (tableLookup (primaryBundle selectedLocale a getAlternate) "pluralRule") eqn:Ep;
    [repeat split; rewrite init_eq; cbn zeta; cbn [bundle fallback plural];
     rewrite ?Ep; reflexivity|].
  destruct (tableLookup (getBundle a "en-US") "pluralRule") eqn:E;
    repeat split; rewrite init_eq; cbn zeta; cbn [bundle fallback plural];
    rewrite ?E; reflexivity.
Qed.

(** X10.  The plural rule installed by a successful [init] is the one the
    primary bundle names under [pluralRule], and the one of [en-US] when the
    primary bundle does not name any: a locale whose bundle lacks the key
    gets the plural rule of [en-US].  Without an alternate function and
    without a bundle for the selected locale, primary and fallback bundle are
    the same bundle of [en-US]. *)
Theorem init_plural_rule (makeGetter : string -> getter) (selectedLocale : string)
    (a : addon) (getAlternate : option (string -> string)) (st0 : store) :
  let result := init makeGetter selectedLocale a getAlternate st0 in
  let primary := primaryBundle selectedLocale a getAlternate in
  (forall rule : string,
     tableLookup primary "pluralRule" = Some rule ->
     result = (inr tt, mkStore primary (getBundle a "en-US") (Some (makeGetter rule))))
  /\ (forall rule : string,
        tableLookup primary "pluralRule" = None ->
        tableLookup (getBundle a "en-US") "pluralRule" = Some rule ->
        result = (inr tt, mkStore primary (getBundle a "en-US") (Some (makeGetter rule))))
  /\ (getAlternate = None ->
      getBundle a selectedLocale = None ->
      bundle (snd result) = fallback (snd result)
      /\ fallback (snd result) = getBundle a "en-US").
Proof.
  cbn zeta. rewrite init_eq. cbn zeta. split; [|split].
  - intros rule Hp. rewrite Hp. reflexivity.
  - intros rule Hp Hf. rewrite Hp, Hf. reflexivity.
  - intros Halt Hsel.
    assert (Hp : primaryBundle selectedLocale a getAlternate = getBundle a "en-US").
    { unfold primaryBundle, alternateLocale. rewrite Hsel, Halt. reflexivity. }
    rewrite Hp.
    destruct (tableLookup (getBundle a "en-US") "pluralRule"); split; reflexivity.
Qed.

Lemma init_plural_rule_witness :
  init demoMakeGetter "de" ruleLessAddonWithReference None uninitialized
  = (inr tt,
     mkStore (getBundle ruleLessAddonWithReference "de") (Some demoFallback)
       (Some (demoMakeGetter "1")))
  /\ bundle (snd (init demoMakeGetter "fr" referenceOnlyAddon None uninitialized))
     = Some demoFallback.
Proof.
  destruct (init_plural_rule demoMakeGetter "de" ruleLessAddonWithReference None
              uninitialized) as (_ & Hrule & _).
  destruct (init_plural_rule demoMakeGetter "fr" referenceOnlyAddon None uninitialized)
    as (_ & _ & Hdefault).
  split.
  - apply (Hrule "1"); reflexivity.
  - destruct Hdefault as [H1 H2]; [reflexivity|reflexivity|].
    rewrite H1. exact H2.
Defined.

(** * The dialog of [startup] *)

Lemma getString_pair (name : string) (args pluralNum : value) (st : store) :
  getString name args pluralNum st = (fst (getString name args pluralNum st), st).
Proof.
  pose proof (getString_store name args pluralNum st) as H.
  destruct (getString name args pluralNum st) as [r st']. cbn [fst snd] in *.
  rewrite H. reflexivity.
Qed.

Lemma bindW_getString {B} (name : string) (args pluralNum : value)
    (k : string -> W B) (shown : list event) (st : store) :
  bindW (liftW (getString name args pluralNum)) k shown st
  = match fst (getString name args pluralNum st) with
    | inr str => k str shown st
    | inl e => (inl e, shown, st)
    end.
Proof.
  unfold bindW, liftW. rewrite getString_pair. cbn [fst].
  destruct (fst (getString name args pluralNum st)); reflexivity.
Qed.

Lemma bindW_prompt {B} (message : string) (answer : value) (k : value -> W B)
    (shown : list event) (st : store) :
  bindW (prompt message answer) k shown st = k answer (shown ++ [Prompt message]) st.
Proof. reflexivity. Qed.

Lemma bindW_confirm {B} (message : string) (answer : bool) (k : bool -> W B)
    (shown : list event) (st : store) :
  bindW (confirm message answer) k shown st = k answer (shown ++ [Confirm message]) st.
Proof. reflexivity. Qed.

Lemma no_alert_app (l l' : list event) :
  no_alert (l ++ l') = no_alert l && no_alert l'.
Proof. apply forallb_app. Qed.

Section StartupRuns.

Variable makeGetter : string -> getter.
Variable selectedLocale : string.
Variable Number : value -> Z.

(** A run of the loop: it shows questions and confirmations only, leaves the
    store alone, and returns the money string of the first accepted turn. *)
Lemma askMoney_run (turns : list (value * bool)) (shown : list event) (st : store) :
  exists asked,
    askMoney Number turns shown st
    = (fst (fst (askMoney Number turns shown st)), shown ++ asked, st)
    /\ no_alert asked = true
    /\ match fst (fst (askMoney Number turns shown st)) with
       | inr (Some money) =>
           exists before answer after,
             turns = before ++ (answer, true) :: after
             /\ declined before = true
             /\ getString "money" (Num (Number answer)) (Num (Number answer)) st
                = (inr money, st)
             /\ List.length asked = 2 * List.length before + 2
       | inr None => declined turns = true
       | inl _ => True
       end.
Proof.
  revert shown. induction turns as [|[answer accepted] turns IH]; intros shown.
  - exists []. cbn. rewrite app_nil_r. auto.
  - cbn [askMoney]. rewrite bindW_getString.
    destruct (fst (getString "howMany" Undefined Undefined st)) as [e|question].
    { exists []. cbn. rewrite app_nil_r. auto. }
    rewrite bindW_prompt, bindW_getString.
    destruct (fst (getString "money" (Num (Number answer)) (Num (Number answer)) st))
      as [e|money] eqn:Hmoney.
    { exists [Prompt question]. cbn. auto. }
    rewrite bindW_getString.
    destruct (fst (getString "confirm" (Str money) Undefined st)) as [e|message].
    { exists [Prompt question]. cbn. auto. }
    rewrite bindW_confirm. destruct accepted; cbn [negb].
    + exists [Prompt question; Confirm message]. unfold retW. cbn [fst].
      rewrite <- app_assoc. split; [reflexivity|]. split; [reflexivity|].
      exists [], answer, turns. repeat split.
      rewrite getString_pair, Hmoney. reflexivity.
    + remember ((shown ++ [Prompt question]) ++ [Confirm message]) as shown2 eqn:E2.
      destruct (IH shown2) as (asked & Hrun & Hno & Hres).
      assert (Htr : shown2 ++ asked = shown ++ Prompt question :: Confirm message :: asked)
        by (subst shown2; rewrite <- !app_assoc; reflexivity).
      exists (Prompt question :: Confirm message :: asked).
      destruct (askMoney Number turns shown2 st) as [[r tr] st'].
      cbn [fst] in *. injection Hrun as -> ->. rewrite Htr.
      split; [reflexivity|]. split; [exact Hno|].
      destruct r as [e|[found|]]; [exact I| |exact Hres].
      destruct Hres as (before & answer' & after & -> & Hdecl & Hget & Hlen).
      exists ((answer, false) :: before), answer', after. repeat split.
      * cbn [declined forallb snd negb andb]. exact Hdecl.
      * exact Hget.
      * cbn [List.length]. lia.
Qed.

Lemma bindW_liftW {A B} (m : M A) (k : A -> W B) (shown : list event) (st : store) :
  bindW (liftW m) k shown st
  = match m st with
    | (inr x, st') => k x shown st'
    | (inl e, st') => (inl e, shown, st')
    end.
Proof. unfold bindW, liftW. destruct (m st) as [[e|x] st']; reflexivity. Qed.

Lemma bindW_eq {A B} (m : W A) (k : A -> W B) (shown : list event) (st : store) :
  bindW m k shown st
  = match m shown st with
    | (inr x, shown', st') => k x shown' st'
    | (inl e, shown', st') => (inl e, shown', st')
    end.
Proof. reflexivity. Qed.

(** A run of [startup], from the store [init] leaves. *)
Lemma startup_run (a : addon) (w : window) (shown shown' : list event) (st st' : store)
    (r : exn + bool) :
  startup makeGetter selectedLocale Number a w shown st = (r, shown', st') ->
  st' = snd (init makeGetter selectedLocale a None st)
  /\ exists added,
       shown' = shown ++ added
       /\ match r with
          | inr true =>
              exists before answer after money first second asked,
                fst (init makeGetter selectedLocale a None st) = inr tt
                /\ rounds w = before ++ (answer, true) :: after
                /\ declined before = true
                /\ getString "money" (Num (Number answer)) (Num (Number answer)) st'
                   = (inr money, st')
                /\ getString "hereHave" (Arr [nameAnswer w; Str money]) Undefined st'
                   = (inr first, st')
                /\ getString "hopeEnough" (Arr [nameAnswer w; Str money]) Undefined st'
                   = (inr second, st')
                /\ added = asked ++ [Alert (first +:+ lineFeed +:+ second)]
                /\ no_alert asked = true
                /\ List.length asked = 2 * List.length before + 3
          | inr false => no_alert added = true /\ declined (rounds w) = true
          | inl _ => no_alert added = true
          end.
Proof.
  unfold startup. rewrite bindW_liftW.
  destruct (init makeGetter selectedLocale a None st) as [[e|[]] st1] eqn:Einit;
    cbn [fst snd].
  { intros [= <- <- <-]. split; [reflexivity|].
    exists []. rewrite app_nil_r. split; reflexivity. }
  rewrite bindW_getString.
  destruct (fst (getString "askName" Undefined Undefined st1)) as [e|question].
  { intros [= <- <- <-]. split; [reflexivity|].
    exists []. rewrite app_nil_r. split; reflexivity. }
  rewrite bindW_prompt, bindW_eq.
  destruct (askMoney_run (rounds w) (shown ++ [Prompt question]) st1)
    as (asked & Hrun & Hno & Hres).
  destruct (askMoney Number (rounds w) (shown ++ [Prompt question]) st1)
    as [[found tr] st2].
  cbn [fst] in Hrun, Hres. injection Hrun as -> ->.
  assert (Htr : (shown ++ [Prompt question]) ++ asked = shown ++ Prompt question :: asked)
    by (rewrite <- app_assoc; reflexivity).
  rewrite Htr.
  destruct found as [e|[money|]].
  - intros [= <- <- <-]. split; [reflexivity|].
    exists (Prompt question :: asked). split; [reflexivity|exact Hno].
  - destruct Hres as (before & answer & after & Hrounds & Hdecl & Hmoney & Hlen).
    rewrite bindW_getString.
    destruct (fst (getString "hereHave" (Arr [nameAnswer w; Str money]) Undefined st1))
      as [e|first] eqn:Hfirst.
    { intros [= <- <- <-]. split; [reflexivity|].
      exists (Prompt question :: asked). split; [reflexivity|exact Hno]. }
    rewrite bindW_getString.
    destruct (fst (getString "hopeEnough" (Arr [nameAnswer w; Str money]) Undefined st1))
      as [e|second] eqn:Hsecond.
    { intros [= <- <- <-]. split; [reflexivity|].
      exists (Prompt question :: asked). split; [reflexivity|exact Hno]. }
    unfold alert, emit, bindW, retW. intros [= <- <- <-]. split; [reflexivity|].
    exists ((Prompt question :: asked) ++ [Alert (first +:+ lineFeed +:+ second)]).
    split; [rewrite <- app_assoc; reflexivity|].
    exists before, answer, after, money, first, second, (Prompt question :: asked).
    repeat split; try assumption.
    + rewrite getString_pair, Hfirst. reflexivity.
    + rewrite getString_pair, Hsecond. reflexivity.
    + cbn [List.length]. lia.
  - unfold retW. intros [= <- <- <-]. split; [reflexivity|].
    exists (Prompt question :: asked). split; [reflexivity|]. split; [exact Hno|exact Hres].
Qed.

(** X11.  Nothing is shown before the strings are there: when [init]
    throws, [startup] throws the same exception and the window has shown
    nothing new. *)
Theorem startup_needs_init (a : addon) (w : window) (shown : list event) (st : store)
    (e : exn) :
  fst (init makeGetter selectedLocale a None st) = inl e ->
  startup makeGetter selectedLocale Number a w shown st
  = (inl e, shown, snd (init makeGetter selectedLocale a None st)).
Proof.
  intros Hinit. unfold startup. rewrite bindW_liftW.
  destruct (init makeGetter selectedLocale a None st) as [[e'|[]] st'];
    cbn [fst snd] in *; [|discriminate Hinit].
  injection Hinit as ->. reflexivity.
Qed.

(** X13.  A run of [startup] that does not come to its end, because an
    exception is thrown or because the user has accepted no turn yet, shows
    no alert; and as long as every turn was declined, [startup] has not come
    to its end. *)
Theorem startup_no_alert_before_end (a : addon) (w : window) (shown : list event)
    (st : store) :
  let run := startup makeGetter selectedLocale Number a w shown st in
  (fst (fst run) <> inr true ->
   exists added, snd (fst run) = shown ++ added /\ no_alert added = true)
  /\ (declined (rounds w) = true -> fst (fst run) <> inr true).
Proof.
  cbn zeta.
  destruct (startup makeGetter selectedLocale Number a w shown st) as [[r tr] st'] eqn:Erun.
  destruct (startup_run a w shown tr st st' r Erun) as (_ & added & -> & Hres).
  cbn [fst snd]. split.
  - intros Hr. exists added. split; [reflexivity|].
    destruct r as [e|[|]]; [exact Hres|congruence|apply Hres].
  - intros Hdecl ->.
    destruct Hres as (before & answer & after & money & first & second & asked & H).
    destruct H as (_ & Hrounds & _).
    rewrite Hrounds in Hdecl. unfold declined in Hdecl.
    rewrite forallb_app in Hdecl. apply andb_true_iff in Hdecl as [_ Hdecl].
    discriminate Hdecl.
Qed.

End StartupRuns.

Lemma startup_needs_init_witness :
  startup demoMakeGetter "en-US" dialogNumber (fun _ => None) dialogWindow []
    uninitialized
  = (inl TypeError, [], uninitialized).
Proof.
  apply (startup_needs_init demoMakeGetter "en-US" dialogNumber (fun _ => None)
           dialogWindow [] uninitialized TypeError).
  reflexivity.
Defined.

Lemma startup_no_alert_before_end_witness :
  (exists added,
     snd (fst (startup demoMakeGetter "en-US" dialogNumber dialogAddon
                 (mkWindow Null [(Str "5", false)]) [] uninitialized))
     = [] ++ added
     /\ no_alert added = true)
  /\ fst (fst (startup demoMakeGetter "en-US" dialogNumber dialogAddon
                 (mkWindow Null [(Str "5", false)]) [] uninitialized))
     <> inr true.
Proof.
  destruct (startup_no_alert_before_end demoMakeGetter "en-US" dialogNumber dialogAddon
              (mkWindow Null [(Str "5", false)]) [] uninitialized) as [Hshown Hend].
  split.
  - apply Hshown. apply Hend. reflexivity.
  - apply Hend. reflexivity.
Defined.

(** ** Formatting again *)

Lemma fillToken_idempotent (args : list value) (t : token) :
  fillToken args (fillToken args t) = fillToken args t.
Proof.
  destruct t as [text|upper|n upper]; try reflexivity.
  cbn [fillToken]. destruct (argText args n) eqn:E; [reflexivity|].
  cbn [fillToken]. rewrite E. reflexivity.
Qed.

Lemma argText_plain (args : list value) (n : nat) (text : string) :
  plainArgs args = true -> argText args n = Some text -> plain text = true.
Proof.
  intros Hargs. destruct n as [|i]; [discriminate|]. cbn [argText].
  destruct (nth_error args i) as [v|] eqn:E; [|discriminate].
  intros [= <-]. apply nth_error_In in E.
  unfold plainArgs in Hargs. rewrite forallb_forall in Hargs. apply Hargs, E.
Qed.

Lemma unambiguous_fillToken (args : list value) (ts : list token) :
  plainArgs args = true ->
  unambiguous ts = true -> unambiguous (map (fillToken args) ts) = true.
Proof.
  intros Hargs. induction ts as [|t ts IH]; [reflexivity|].
  cbn [unambiguous forallb map]. intros [Ht Hts]%andb_true_iff.
  apply andb_true_iff. split; [|apply IH, Hts].
  destruct t as [text|upper|n upper]; cbn [fillToken].
  - exact Ht.
  - rewrite (plain_percent _ (plainArgs_first args Hargs)). reflexivity.
  - destruct (argText args n) as [text|] eqn:E; [|reflexivity].
    rewrite (plain_percent _ (argText_plain args n text Hargs E)). reflexivity.
Qed.

(** X14.  On an unambiguous template and with arguments whose text is
    plain, filling the arguments in a second time changes nothing: the text
    filled in is not read as a template again, and the placeholders that were
    left stay. *)
Theorem fillArgs_idempotent (ts : list token) (args : list value) :
  unambiguous ts = true ->
  plainArgs args = true ->
  fillArgs (Arr args) (fillArgs (Arr args) (render ts)) = fillArgs (Arr args) (render ts).
Proof.
  intros Hts Hargs.
  rewrite (fillArgs_render args ts Hts Hargs).
  rewrite fillArgs_render by (auto using unambiguous_fillToken).
  rewrite map_map. f_equal. apply map_ext. intros t. apply fillToken_idempotent.
Qed.

Lemma fillArgs_idempotent_witness :
  fillArgs (Arr [Str "Ann"])
    (fillArgs (Arr [Str "Ann"]) "Here, have %s and %2$S")
  = fillArgs (Arr [Str "Ann"]) "Here, have %s and %2$S".
Proof.
  apply (fillArgs_idempotent hereHaveTokens [Str "Ann"]); reflexivity.
Defined.

(** * Literal replacement text *)

Lemma GetSubstitution_literal (m b a r : string) :
  literal r = true -> GetSubstitution m b a r = r.
Proof.
  induction r as [|c r IH]; [reflexivity|]. cbn [literal GetSubstitution].
  destruct (Ascii.eqb c "$") eqn:Ec.
  - destruct r as [|d r']; [reflexivity|].
    intros [Hd Hr]%andb_true_iff. apply negb_true_iff in Hd.
    unfold dollar_code in Hd.
    apply orb_false_iff in Hd as [Hd H4]. apply orb_false_iff in Hd as [Hd H3].
    apply orb_false_iff in Hd as [H1 H2].
    rewrite H1, H2, H3, H4, (IH Hr). reflexivity.
  - intros Hr. rewrite (IH Hr). reflexivity.
Qed.

Lemma literal_dollar_free (r : string) : occurs "$" r = false -> literal r = true.
Proof.
  induction r as [|c r IH]; [reflexivity|]. cbn [occurs literal].
  intros [Hc Hr]%orb_false_iff. rewrite Ascii.eqb_sym, Hc. apply IH, Hr.
Qed.

(** With a literal replacement text the scan does not depend on what it
    has passed. *)
Lemma replace_from_before_literal (pat r : string) (k : nat) (b b' s : string) :
  literal r = true ->
  replace_from pat r k b s = replace_from pat r k b' s.
Proof.
  intros Hr. revert k b b'. induction s as [|c s IH]; intros k b b'; [reflexivity|].
  cbn [replace_from]. destruct k as [|k]; [|apply IH].
  destruct (match_at pat (String c s)) as [[m rest]|].
  - rewrite !GetSubstitution_literal by assumption. f_equal. apply IH.
  - f_equal. apply IH.
Qed.

Lemma replace_from_append_literal (body r u v b : string) :
  literal r = true ->
  occurs "%" body = false ->
  percent_headed v ->
  replace_from (String "%" body) r 0 b (u +:+ v)
  = replace_from (String "%" body) r 0 b u +:+ replace_from (String "%" body) r 0 b v.
Proof.
  intros Hr Hbody Hv. revert b. induction u as [u IH] using string_length_ind. intros b.
  destruct u as [|c u]; [reflexivity|].
  destruct (match_at (String "%" body) (String c u +:+ v)) as [[m rest]|] eqn:E.
  - destruct (match_at_percent_within _ _ _ _ _ _ Hbody Hv E) as (u' & E' & ->).
    rewrite (replace_from_match _ _ _ _ _ _ _ E), (replace_from_match _ _ _ _ _ _ _ E').
    rewrite !GetSubstitution_literal by assumption.
    destruct (match_at_split _ _ _ _ E') as [Hu Hlen]. cbn [String.length] in Hlen.
    rewrite IH, append_assoc.
    + f_equal. f_equal. apply replace_from_before_literal, Hr.
    + rewrite Hu, length_append. lia.
  - assert (E' : match_at (String "%" body) (String c u) = None).
    { destruct (match_at (String "%" body) (String c u)) as [[m rest]|] eqn:E'; [|reflexivity].
      rewrite (match_at_append _ _ v _ _ E') in E. discriminate E. }
    rewrite append_cons in *.
    rewrite (replace_from_no_match _ _ _ _ _ E), (replace_from_no_match _ _ _ _ _ E').
    rewrite IH, append_cons by (cbn [String.length]; lia).
    f_equal. f_equal. apply replace_from_before_literal, Hr.
Qed.

(** ** Text the pattern does not match *)

Lemma match_at_breaks (body u v m rest : string) :
  breaks body v = true ->
  match_at body (u +:+ v) = Some (m, rest) ->
  exists u', match_at body u = Some (m, u') /\ rest = u' +:+ v.
Proof.
  revert u m rest. induction body as [|p body IH]; intros u m rest Hv.
  - cbn [match_at]. intros [= <- <-]. exists u. split; reflexivity.
  - destruct u as [|c u].
    + rewrite append_nil_l. destruct v as [|c v]; [intros [=]|].
      cbn [breaks meets] in Hv. apply negb_true_iff, orb_false_iff in Hv as [Hp _].
      cbn [match_at]. rewrite Hp. intros [=].
    + rewrite append_cons. cbn [match_at].
      destruct (Ascii.eqb (canonicalize p) (canonicalize c)); [|intros [=]].
      destruct (match_at body (u +:+ v)) as [[m' rest']|] eqn:E; [|intros [=]].
      intros [= <- <-].
      assert (Hv' : breaks body v = true).
      { destruct v as [|d v]; [reflexivity|]. cbn [breaks meets] in Hv |- *.
        apply negb_true_iff, orb_false_iff in Hv as [_ Hv]. rewrite Hv. reflexivity. }
      destruct (IH _ _ _ Hv' E) as (u' & -> & ->).
      exists u'. split; reflexivity.
Qed.

(** Text in which the pattern matches nowhere, before text no match runs
    into, is copied. *)
Lemma replace_from_unmentioned (p : ascii) (body r b u v : string) :
  mentions (String p body) u = false ->
  breaks body v = true ->
  replace_from (String p body) r 0 b (u +:+ v)
  = u +:+ replace_from (String p body) r 0 (b +:+ u) v.
Proof.
  intros Hu Hv. revert b Hu. induction u as [|c u IH]; intros b Hu.
  - rewrite append_nil_l, append_nil_r. reflexivity.
  - cbn [mentions] in Hu.
    destruct (match_at (String p body) (String c u)) as [[m0 rest0]|] eqn:E0;
      [discriminate Hu|].
    assert (E : match_at (String p body) (String c u +:+ v) = None).
    { destruct (match_at (String p body) (String c u +:+ v)) as [[m rest]|] eqn:E;
        [|reflexivity].
      rewrite append_cons in E. cbn [match_at] in E, E0.
      destruct (Ascii.eqb (canonicalize p) (canonicalize c)); [|discriminate E].
      destruct (match_at body (u +:+ v)) as [[m' rest']|] eqn:E'; [|discriminate E].
      destruct (match_at_breaks _ _ _ _ _ Hv E') as (u' & Hm & _).
      rewrite Hm in E0. discriminate E0. }
    rewrite append_cons in *. rewrite (replace_from_no_match _ _ _ _ _ E).
    rewrite IH by exact Hu. rewrite append_assoc. reflexivity.
Qed.

(** * The sample call, again *)

(** C2, amended.  When the template found for [hereHave] is
    [Here, have %s and %2$S], [getString("hereHave", [name, money])] returns
    [Here, have <name> and <money>] whenever the text of the name and the
    text of the money are literal (none of [$$], [$&], [$`], [$']) and the
    name holds neither the placeholder [%1$S] nor the placeholder [%2$S], in
    either case: the bare placeholder takes the first argument and [%2$S]
    the second. *)
Theorem getString_hereHave (st : store) (name money : value) :
  lookupString "hereHave" st = (inr "Here, have %s and %2$S", st) ->
  literal (ToString name) = true ->
  mentions "%1$S" (ToString name) = false ->
  mentions "%2$S" (ToString name) = false ->
  literal (ToString money) = true ->
  getString "hereHave" (Arr [name; money]) Undefined st
  = (inr ("Here, have " +:+ ToString name +:+ " and " +:+ ToString money), st).
Proof.
  intros Hlookup Hname H1 H2 Hmoney.
  rewrite (getString_fillArgs st _ _ _ _ _ Hlookup (pickPlural_null Undefined _ _ eq_refl)).
  f_equal. f_equal.
  unfold fillArgs, toArray. cbn [is_null negb typeof_string get_length orb nth forEach].
  unfold replace.
  set (n := ToString name) in *. set (m := ToString money) in *.
  (* the bare pass *)
  change "Here, have %s and %2$S"
    with ("Here, have " +:+ bareText false +:+ " and " +:+ positionalText 2 true +:+ "").
  rewrite (replace_from_copy "s") by reflexivity.
  rewrite (replace_from_match _ _ _ _ _ _ _ (match_bare_bare false _)).
  rewrite GetSubstitution_literal by exact Hname.
  rewrite (replace_from_copy "s") by reflexivity.
  unfold positionalText at 1.
  rewrite (replace_from_other "s");
    [|apply percent_free_positional_tail|apply match_bare_positional].
  change (replace_from "%s" n 0 _ "") with "".
  (* the pass for the first argument *)
  change (positional 0) with (String "%" "1$S").
  rewrite (replace_from_copy "1$S") by reflexivity.
  rewrite (replace_from_unmentioned "%" "1$S") by (assumption || reflexivity).
  rewrite (replace_from_copy "1$S") by reflexivity.
  rewrite (replace_from_other "1$S"); [|reflexivity|reflexivity].
  change (replace_from "%1$S" n 0 _ "") with "".
  (* the pass for the second argument *)
  change (positional 1) with (String "%" "2$S").
  rewrite (replace_from_copy "2$S") by reflexivity.
  rewrite (replace_from_unmentioned "%" "2$S") by (assumption || reflexivity).
  rewrite (replace_from_copy "2$S") by reflexivity.
  rewrite (replace_from_match "%" "2$S" m _ _ (String "%" ("2" +:+ "$S")) "")
    by reflexivity.
  rewrite GetSubstitution_literal by exact Hmoney.
  change (replace_from "%2$S" m 0 _ "") with "".
  rewrite !append_nil_r. reflexivity.
Qed.

Lemma getString_hereHave_witness :
  getString "hereHave" (Arr [Str "100%"; Str "$5"]) Undefined demoStore
  = (inr "Here, have 100% and $5", demoStore).
Proof.
  apply (getString_hereHave demoStore (Str "100%") (Str "$5")); reflexivity.
Defined.

(** * The two passes, again *)

Lemma verbatimArgs_first (args : list value) :
  verbatimArgs args = true ->
  literal (ToString (nth 0 args Undefined)) = true
  /\ occurs "%" (ToString (nth 0 args Undefined)) = false.
Proof.
  destruct args as [|v args]; [split; reflexivity|]. cbn [verbatimArgs forallb nth].
  intros [[H1 H2]%andb_true_iff _]%andb_true_iff.
  split; [exact H1|apply negb_true_iff, H2].
Qed.

Lemma replace_bare_render_literal (r b : string) (ts : list token) :
  literal r = true ->
  unambiguous ts = true ->
  replace_from "%s" r 0 b (render ts) = render (map (fillBare r) ts).
Proof.
  intros Hr. revert b. induction ts as [|t ts IH]; intros b Hts; [reflexivity|].
  cbn [unambiguous forallb] in Hts. apply andb_true_iff in Hts as [Ht Hts].
  cbn [render map]. destruct t as [text|upper|n upper]; cbn [tokenText fillBare].
  - apply negb_true_iff in Ht. rewrite replace_from_copy by assumption.
    rewrite IH by assumption. reflexivity.
  - rewrite (replace_from_match _ _ _ _ _ _ _ (match_bare_bare upper _)).
    rewrite GetSubstitution_literal, IH by assumption. reflexivity.
  - unfold positionalText at 1.
    rewrite replace_from_other;
      [|apply percent_free_positional_tail|apply match_bare_positional].
    rewrite IH by assumption. reflexivity.
Qed.

Lemma replace_positional_render_literal (index : nat) (r b : string) (ts : list token) :
  literal r = true ->
  unambiguous ts = true ->
  replace_from (positional index) r 0 b (render ts)
  = render (map (fillPositional index r) ts).
Proof.
  intros Hr. revert b. induction ts as [|t ts IH]; intros b Hts; [reflexivity|].
  cbn [unambiguous forallb] in Hts. apply andb_true_iff in Hts as [Ht Hts].
  cbn [render map]. destruct t as [text|upper|n upper]; cbn [tokenText fillPositional].
  - apply negb_true_iff in Ht. rewrite positional_eq.
    rewrite replace_from_copy by assumption.
    rewrite <- positional_eq, IH by assumption. reflexivity.
  - pose proof (match_positional_bare index upper (render ts)) as E.
    rewrite positional_eq in E |- *. unfold bareText at 1.
    rewrite replace_from_other; [|destruct upper; reflexivity|exact E].
    rewrite <- positional_eq, IH by assumption. reflexivity.
  - pose proof (match_positional_positional index n upper (render ts)) as E.
    destruct (Nat.eqb n (index + 1)).
    + rewrite positional_eq in E |- *.
      rewrite (replace_from_match _ _ _ _ _ _ _ E).
      rewrite GetSubstitution_literal by assumption.
      rewrite <- positional_eq, IH by assumption. reflexivity.
    + rewrite positional_eq in E |- *. unfold positionalText at 1.
      rewrite replace_from_other; [|apply percent_free_positional_tail|exact E].
      rewrite <- positional_eq, IH by assumption. reflexivity.
Qed.

Lemma forEach_render_verbatim (args : list value) (index : nat) (ts : list token) :
  verbatimArgs args = true ->
  unambiguous ts = true ->
  forEach args index (render ts) = render (fillEach args index ts)
  /\ unambiguous (fillEach args index ts) = true.
Proof.
  revert index ts. induction args as [|v args IH]; intros index ts Hargs Hts.
  - split; [reflexivity|assumption].
  - cbn [verbatimArgs forallb] in Hargs. apply andb_true_iff in Hargs as [Hv Hargs].
    apply andb_true_iff in Hv as [Hlit Hpct]. apply negb_true_iff in Hpct.
    cbn [forEach fillEach]. unfold replace.
    rewrite replace_positional_render_literal by assumption.
    apply IH; [assumption|]. apply unambiguous_fillPositional; assumption.
Qed.

(** Wherever a bare placeholder stands, the bare pass puts the
    substitution of its replacement text there and goes on behind it. *)
Lemma replace_at_bare (r : string) (upper : bool) (pre post b : string) :
  exists out,
    replace_from "%s" r 0 b (pre +:+ bareText upper +:+ post)
    = out +:+ GetSubstitution (bareText upper) (b +:+ pre) post r
      +:+ replace_from "%s" r 0 (b +:+ pre +:+ bareText upper) post.
Proof.
  destruct (replace_from_prefix "s" r pre (bareText upper +:+ post) eq_refl
              (percent_headed_bareText upper post) b) as [out Hout].
  exists out. rewrite Hout.
  rewrite (replace_from_match _ _ _ _ _ _ _ (match_bare_bare upper post)).
  rewrite append_assoc. reflexivity.
Qed.

Lemma replace_at_positional (index : nat) (r : string) (upper : bool)
    (pre post b : string) :
  exists out,
    replace_from (positional index) r 0 b (pre +:+ positionalText (index + 1) upper +:+ post)
    = out +:+ GetSubstitution (positionalText (index + 1) upper) (b +:+ pre) post r
      +:+ replace_from (positional index) r 0
            (b +:+ pre +:+ positionalText (index + 1) upper) post.
Proof.
  pose proof (match_positional_positional index (index + 1) upper post) as E.
  rewrite Nat.eqb_refl in E. rewrite positional_eq in E |- *.
  destruct (replace_from_prefix (dec (index + 1) +:+ "$S") r pre
              (positionalText (index + 1) upper +:+ post)
              (percent_free_positional_body index)
              (percent_headed_positionalText (index + 1) upper post) b) as [out Hout].
  exists out. rewrite Hout.
  rewrite (replace_from_match _ _ _ _ _ _ _ E).
  rewrite append_assoc. reflexivity.
Qed.

Lemma replace_literal_bare (r : string) (upper : bool) (pre post : string) :
  literal r = true ->
  replace_from "%s" r 0 EmptyString (pre +:+ bareText upper +:+ post)
  = replace_from "%s" r 0 EmptyString pre +:+ r
    +:+ replace_from "%s" r 0 EmptyString post.
Proof.
  intros Hr.
  rewrite replace_from_append_literal;
    [|assumption|reflexivity|apply percent_headed_bareText].
  rewrite (replace_from_match _ _ _ _ _ _ _ (match_bare_bare upper post)).
  rewrite GetSubstitution_literal by assumption.
  rewrite (replace_from_before_literal _ _ _ _ EmptyString post Hr). reflexivity.
Qed.

Lemma replace_literal_bare_other (r : string) (n : nat) (upper : bool)
    (pre post : string) :
  literal r = true ->
  replace_from "%s" r 0 EmptyString (pre +:+ positionalText n upper +:+ post)
  = replace_from "%s" r 0 EmptyString pre +:+ positionalText n upper
    +:+ replace_from "%s" r 0 EmptyString post.
Proof.
  intros Hr.
  rewrite replace_from_append_literal;
    [|assumption|reflexivity|apply percent_headed_positionalText].
  unfold positionalText at 1.
  rewrite replace_from_other;
    [|apply percent_free_positional_tail|apply match_bare_positional].
  rewrite (replace_from_before_literal _ _ _ _ EmptyString post Hr). reflexivity.
Qed.

Lemma replace_literal_positional (index : nat) (r : string) (upper : bool)
    (pre post : string) :
  literal r = true ->
  replace_from (positional index) r 0 EmptyString
    (pre +:+ positionalText (index + 1) upper +:+ post)
  = replace_from (positional index) r 0 EmptyString pre +:+ r
    +:+ replace_from (positional index) r 0 EmptyString post.
Proof.
  intros Hr.
  pose proof (match_positional_positional index (index + 1) upper post) as E.
  rewrite Nat.eqb_refl in E. rewrite positional_eq in E |- *.
  rewrite replace_from_append_literal;
    [|assumption|apply percent_free_positional_body|apply percent_headed_positionalText].
  rewrite (replace_from_match _ _ _ _ _ _ _ E).
  rewrite GetSubstitution_literal by assumption.
  rewrite (replace_from_before_literal _ _ _ _ EmptyString post Hr). reflexivity.
Qed.

(** C6, amended.  Both passes are global: wherever in a template a bare
    placeholder stands, in either case, the bare pass puts the substitution
    of its argument there and goes on behind it, and so does the positional
    pass for an index at every placeholder of that index; with a literal
    argument text the pass gives what it gives of the text before, the
    argument's text, and what it gives of the text after.  On an unambiguous
    template and with arguments whose text is literal and holds no percent
    sign, the bare pass fills every bare placeholder and leaves the rest as it
    is, the positional pass for an index fills every placeholder of that index
    and leaves the rest as it is, and the bare pass followed by the positional
    passes gives the same string as the positional passes followed by the
    bare pass. *)
Theorem passes_commute :
  (forall (r : string) (upper : bool) (pre post b : string),
     exists out,
       replace_from "%s" r 0 b (pre +:+ bareText upper +:+ post)
       = out +:+ GetSubstitution (bareText upper) (b +:+ pre) post r
         +:+ replace_from "%s" r 0 (b +:+ pre +:+ bareText upper) post)
  /\ (forall (index : nat) (r : string) (upper : bool) (pre post b : string),
        exists out,
          replace_from (positional index) r 0 b
            (pre +:+ positionalText (index + 1) upper +:+ post)
          = out +:+ GetSubstitution (positionalText (index + 1) upper) (b +:+ pre) post r
            +:+ replace_from (positional index) r 0
                  (b +:+ pre +:+ positionalText (index + 1) upper) post)
  /\ (forall (v : value) (upper : bool) (pre post : string),
        literal (ToString v) = true ->
        replace "%s" v (pre +:+ bareText upper +:+ post)
        = replace "%s" v pre +:+ ToString v +:+ replace "%s" v post)
  /\ (forall (index : nat) (v : value) (upper : bool) (pre post : string),
        literal (ToString v) = true ->
        replace (positional index) v (pre +:+ positionalText (index + 1) upper +:+ post)
        = replace (positional index) v pre +:+ ToString v
          +:+ replace (positional index) v post)
  /\ (forall (ts : list token) (args : list value),
        unambiguous ts = true ->
        verbatimArgs args = true ->
        let first := nth 0 args Undefined in
        replace "%s" first (render ts) = render (map (fillBare (ToString first)) ts)
        /\ (forall (index : nat) (v : value),
              literal (ToString v) = true ->
              replace (positional index) v (render ts)
              = render (map (fillPositional index (ToString v)) ts))
        /\ forEach args 0 (replace "%s" first (render ts))
           = replace "%s" first (forEach args 0 (render ts))).
Proof.
  split; [exact replace_at_bare|]. split; [exact replace_at_positional|].
  split; [intros v upper pre post Hv; apply replace_literal_bare, Hv|].
  split; [intros index v upper pre post Hv; apply replace_literal_positional, Hv|].
  intros ts args Hts Hargs first.
  destruct (verbatimArgs_first args Hargs) as [Hlit Hpct]. fold first in Hlit, Hpct.
  assert (Hbare : forall ts' : list token,
             unambiguous ts' = true ->
             replace "%s" first (render ts') = render (map (fillBare (ToString first)) ts')).
  { intros ts' Hts'. unfold replace.
    apply replace_bare_render_literal; [exact Hlit|exact Hts']. }
  split; [apply Hbare, Hts|]. split.
  - intros index v Hv. unfold replace.
    apply replace_positional_render_literal; [exact Hv|exact Hts].
  - destruct (forEach_render_verbatim args 0 ts Hargs Hts) as [Heach Huna].
    rewrite Heach, (Hbare _ Huna), (Hbare _ Hts), fillBare_fillEach.
    apply forEach_render_verbatim; [exact Hargs|].
    apply unambiguous_fillBare; [exact Hpct|exact Hts].
Qed.

Lemma passes_commute_witness :
  replace "%s" (Str "$5") "100% %s %S"
  = replace "%s" (Str "$5") "100% " +:+ "$5" +:+ replace "%s" (Str "$5") " %S"
  /\ forEach [Str "Ann"; Str "$5"] 0
       (replace "%s" (Str "Ann") "Here, have %s and %2$S")
     = replace "%s" (Str "Ann")
         (forEach [Str "Ann"; Str "$5"] 0 "Here, have %s and %2$S").
Proof.
  destruct passes_commute as (_ & _ & Hbare & _ & Hcommute).
  split.
  - exact (Hbare (Str "$5") false "100% " " %S" eq_refl).
  - apply (Hcommute hereHaveTokens [Str "Ann"; Str "$5"]); reflexivity.
Defined.

(** * Letter case, again *)

(** C8 as stated fails for the argument [$&], which stands for the
    placeholder as the template spells it: the template [%S] then returns
    [%S] and the template [%s] returns [%s]. *)
Lemma ignore_case_counterexample :
  fillArgs (Str "$&") "%S" = "%S"
  /\ fillArgs (Str "$&") "%s" = "%s"
  /\ fillArgs (Str "$&") "%S" <> fillArgs (Str "$&") "%s".
Proof.
  split; [reflexivity|]. split; [reflexivity|]. vm_compute. intros [=].
Qed.

(** C8, amended.  Both patterns ignore the case of the letter: at [%S] as at
    [%s] the bare pass emits the substitution of its replacement text and
    goes on behind the placeholder, and at [%n$s] as at [%n$S] so does the
    positional pass for that index.  When the first argument's text is
    literal, a template with [%S] returns what the template with [%s] in its
    place returns, the argument's text standing where the placeholder stood
    when the positional passes begin; and when there is a first argument, a
    template with [%1$s] returns what the one with [%1$S] returns, the
    argument's text standing in its place after the pass for the first
    argument.  Between text without percent sign, and with an argument text
    without percent sign, each of the four spellings is replaced by the
    argument's text and nothing else changes. *)
Theorem placeholders_ignore_case :
  (forall (upper : bool) (r b rest : string),
     replace_from "%s" r 0 b (bareText upper +:+ rest)
     = GetSubstitution (bareText upper) b rest r
       +:+ replace_from "%s" r 0 (b +:+ bareText upper) rest)
  /\ (forall (index : nat) (upper : bool) (r b rest : string),
        replace_from (positional index) r 0 b (positionalText (index + 1) upper +:+ rest)
        = GetSubstitution (positionalText (index + 1) upper) b rest r
          +:+ replace_from (positional index) r 0
                (b +:+ positionalText (index + 1) upper) rest)
  /\ (forall (args : value) (pre post : string),
        is_null args = false ->
        let first := nth 0 (toArray args) Undefined in
        let bare := replace "%s" first in
        let one := replace (positional 0) first in
        literal (ToString first) = true ->
        (fillArgs args (pre +:+ "%S" +:+ post)
         = forEach (toArray args) 0 (bare pre +:+ ToString first +:+ bare post)
         /\ fillArgs args (pre +:+ "%s" +:+ post)
            = forEach (toArray args) 0 (bare pre +:+ ToString first +:+ bare post))
        /\ (toArray args <> [] ->
            fillArgs args (pre +:+ "%1$s" +:+ post)
            = forEach (tl (toArray args)) 1
                (one (bare pre) +:+ ToString first +:+ one (bare post))
            /\ fillArgs args (pre +:+ "%1$S" +:+ post)
               = forEach (tl (toArray args)) 1
                   (one (bare pre) +:+ ToString first +:+ one (bare post))))
  /\ (forall (args : value) (pre post : string),
        is_null args = false ->
        let first := nth 0 (toArray args) Undefined in
        literal (ToString first) = true ->
        occurs "%" (ToString first) = false ->
        occurs "%" pre = false ->
        occurs "%" post = false ->
        (fillArgs args (pre +:+ "%S" +:+ post) = pre +:+ ToString first +:+ post
         /\ fillArgs args (pre +:+ "%s" +:+ post) = pre +:+ ToString first +:+ post)
        /\ (toArray args <> [] ->
            fillArgs args (pre +:+ "%1$s" +:+ post) = pre +:+ ToString first +:+ post
            /\ fillArgs args (pre +:+ "%1$S" +:+ post) = pre +:+ ToString first +:+ post)).
Proof.
  assert (Hgeneral :
    forall (args : value) (pre post : string),
      is_null args = false ->
      let first := nth 0 (toArray args) Undefined in
      let bare := replace "%s" first in
      let one := replace (positional 0) first in
      literal (ToString first) = true ->
      (fillArgs args (pre +:+ "%S" +:+ post)
       = forEach (toArray args) 0 (bare pre +:+ ToString first +:+ bare post)
       /\ fillArgs args (pre +:+ "%s" +:+ post)
          = forEach (toArray args) 0 (bare pre +:+ ToString first +:+ bare post))
      /\ (toArray args <> [] ->
          fillArgs args (pre +:+ "%1$s" +:+ post)
          = forEach (tl (toArray args)) 1
              (one (bare pre) +:+ ToString first +:+ one (bare post))
          /\ fillArgs args (pre +:+ "%1$S" +:+ post)
             = forEach (tl (toArray args)) 1
                 (one (bare pre) +:+ ToString first +:+ one (bare post)))).
  { intros args pre post Hargs first bare one Hfirst.
    unfold fillArgs. rewrite Hargs. cbn [negb]. fold first. split.
    - unfold bare, replace.
      change (pre +:+ "%S" +:+ post) with (pre +:+ bareText true +:+ post).
      change (pre +:+ "%s" +:+ post) with (pre +:+ bareText false +:+ post).
      rewrite !replace_literal_bare by exact Hfirst. split; reflexivity.
    - intros Hne. unfold first in *. destruct (toArray args) as [|v l]; [congruence|].
      cbn [nth tl forEach] in *. unfold one, bare, replace.
      change (pre +:+ "%1$s" +:+ post) with (pre +:+ positionalText (0 + 1) false +:+ post).
      change (pre +:+ "%1$S" +:+ post) with (pre +:+ positionalText (0 + 1) true +:+ post).
      rewrite !replace_literal_bare_other by exact Hfirst.
      rewrite !replace_literal_positional by exact Hfirst. split; reflexivity. }
  split; [|split; [|split; [exact Hgeneral|]]].
  - intros upper r b rest.
    apply (replace_from_match _ _ _ _ _ _ _ (match_bare_bare upper rest)).
  - intros index upper r b rest.
    pose proof (match_positional_positional index (index + 1) upper rest) as E.
    rewrite Nat.eqb_refl in E. rewrite positional_eq in E |- *.
    apply (replace_from_match _ _ _ _ _ _ _ E).
  - intros args pre post Hargs first Hfirst Hpct Hpre Hpost.
    destruct (Hgeneral args pre post Hargs Hfirst) as [[HS Hs] Hone].
    assert (Hbare : forall text, occurs "%" text = false -> replace "%s" first text = text).
    { intros text Htext. unfold replace. apply (replace_percent_free "s"), Htext. }
    assert (Hpos : forall text, occurs "%" text = false ->
                                replace (positional 0) first text = text).
    { intros text Htext. unfold replace. rewrite positional_eq.
      apply replace_percent_free, Htext. }
    assert (Hall : occurs "%" (pre +:+ ToString first +:+ post) = false).
    { rewrite !occurs_append. fold first. rewrite Hpre, Hpct, Hpost. reflexivity. }
    fold first in HS, Hs, Hone.
    rewrite !Hbare in HS, Hs by assumption.
    rewrite forEach_percent_free in HS, Hs by exact Hall.
    split; [split; assumption|].
    intros Hne. destruct (Hone Hne) as [H1 H2].
    rewrite !Hbare, !Hpos in H1, H2 by assumption.
    rewrite forEach_percent_free in H1, H2 by exact Hall.
    split; assumption.
Qed.

Lemma placeholders_ignore_case_witness :
  (fillArgs (Str "$5") "Pay %S!" = "Pay $5!" /\ fillArgs (Str "$5") "Pay %s!" = "Pay $5!")
  /\ fillArgs (Str "$5") "Pay %1$s!" = "Pay $5!"
  /\ fillArgs (Str "$5") "Pay %1$S!" = "Pay $5!".
Proof.
  destruct placeholders_ignore_case as (_ & _ & _ & H).
  destruct (H (Str "$5") "Pay " "!") as [Hbare Hone]; try reflexivity.
  split; [exact Hbare|]. apply Hone. discriminate.
Defined.

(** * The exception of a name nobody defines *)

(** C1 as stated fails in a state [init] establishes: when the add-on has
    no bundle for [en-US] and the primary bundle defines [pluralRule], [init]
    succeeds without a fallback bundle, and a name the primary bundle does
    not define then makes [getString] throw a [TypeError], not
    [MissingKey]. *)
Lemma lookup_order_counterexample :
  let st := mkStore (Some demoPrimary) None (Some (ruleGetter twoFormsIndex)) in
  init demoMakeGetter "de" primaryOnlyAddon None uninitialized = (inr tt, st)
  /\ demoPrimary !! "askName" = None
  /\ getString "askName" Undefined Undefined st = (inl TypeError, st)
  /\ TypeError <> MissingKey "askName".
Proof.
  split; [reflexivity|]. split; [reflexivity|]. split; [reflexivity|]. discriminate.
Qed.

(** * The dialog of [startup], event by event *)

Section StartupEvents.

Variable makeGetter : string -> getter.
Variable selectedLocale : string.
Variable Number : value -> Z.

(** A run of the loop that ends with a money string: what it has shown,
    turn by turn. *)
Lemma askMoney_events (turns : list (value * bool)) (shown shown' : list event)
    (st st' : store) (money : string) :
  askMoney Number turns shown st = (inr (Some money), shown', st') ->
  st' = st
  /\ exists before answer after howMany groups,
       turns = before ++ (answer, true) :: after
       /\ declined before = true
       /\ getString "howMany" Undefined Undefined st = (inr howMany, st)
       /\ Forall2 (turnShown Number st howMany) (before ++ [(answer, true)]) groups
       /\ getString "money" (Num (Number answer)) (Num (Number answer)) st
          = (inr money, st)
       /\ shown' = shown ++ concat groups.
Proof.
  revert shown. induction turns as [|[answer accepted] turns IH]; intros shown.
  - cbn [askMoney]. unfold retW. intros [=].
  - cbn [askMoney]. rewrite bindW_getString.
    destruct (fst (getString "howMany" Undefined Undefined st)) as [e|question] eqn:Hq;
      [intros [=]|].
    rewrite bindW_prompt, bindW_getString.
    destruct (fst (getString "money" (Num (Number answer)) (Num (Number answer)) st))
      as [e|found] eqn:Hmoney; [intros [=]|].
    rewrite bindW_getString.
    destruct (fst (getString "confirm" (Str found) Undefined st)) as [e|message] eqn:Hc;
      [intros [=]|].
    rewrite bindW_confirm.
    assert (Hturn : forall accepted' : bool,
               turnShown Number st question (answer, accepted')
                 [Prompt question; Confirm message]).
    { intros accepted'. exists found, message. cbn [fst].
      rewrite (getString_pair "money"), Hmoney, (getString_pair "confirm"), Hc.
      repeat split. }
    assert (Hhow : getString "howMany" Undefined Undefined st = (inr question, st))
      by (rewrite getString_pair, Hq; reflexivity).
    destruct accepted; cbn [negb].
    + unfold retW. intros [= <- <- <-]. split; [reflexivity|].
      exists [], answer, turns, question, [[Prompt question; Confirm message]].
      split; [reflexivity|]. split; [reflexivity|]. split; [exact Hhow|].
      split; [constructor; [apply Hturn|constructor]|].
      split; [rewrite getString_pair, Hmoney; reflexivity|].
      cbn [concat]. rewrite app_nil_r, <- app_assoc. reflexivity.
    + intros Hrun. destruct (IH _ Hrun) as (-> & before & answer' & after & howMany
                                             & groups & -> & Hdecl & Hhow' & Hall & Hget & ->).
      split; [reflexivity|].
      assert (howMany = question) as -> by congruence.
      exists ((answer, false) :: before), answer', after, question,
        ([Prompt question; Confirm message] :: groups).
      split; [reflexivity|]. split; [exact Hdecl|]. split; [exact Hhow|].
      split; [constructor; [apply Hturn|exact Hall]|].
      split; [exact Hget|].
      cbn [concat]. rewrite <- !app_assoc. reflexivity.
Qed.

(** X12.  When [startup] comes to its end, some turn of the user was
    accepted and every turn before it declined.  The window has then shown,
    in this order: the question [askName]; for each turn up to the accepted
    one the question [howMany] and the confirmation [confirm] filled with the
    money string of that turn's amount; and last one alert, the line for
    [hereHave] and the line for [hopeEnough], separated by a line feed, both
    filled with the name answered and the money string of the accepted
    turn.  The amounts are those [Number] gives as integers. *)
Theorem startup_finished (a : addon) (w : window) (shown shown' : list event)
    (st st' : store) :
  startup makeGetter selectedLocale Number a w shown st = (inr true, shown', st') ->
  exists before answer after question howMany groups money first second,
    init makeGetter selectedLocale a None st = (inr tt, st')
    /\ rounds w = before ++ (answer, true) :: after
    /\ declined before = true
    /\ getString "askName" Undefined Undefined st' = (inr question, st')
    /\ getString "howMany" Undefined Undefined st' = (inr howMany, st')
    /\ Forall2 (turnShown Number st' howMany) (before ++ [(answer, true)]) groups
    /\ getString "money" (Num (Number answer)) (Num (Number answer)) st'
       = (inr money, st')
    /\ getString "hereHave" (Arr [nameAnswer w; Str money]) Undefined st'
       = (inr first, st')
    /\ getString "hopeEnough" (Arr [nameAnswer w; Str money]) Undefined st'
       = (inr second, st')
    /\ shown' = shown ++ [Prompt question] ++ concat groups
                ++ [Alert (first +:+ lineFeed +:+ second)].
Proof.
  unfold startup. rewrite bindW_liftW.
  destruct (init makeGetter selectedLocale a None st) as [[e|[]] st1] eqn:Einit;
    [intros [=]|].
  rewrite bindW_getString.
  destruct (fst (getString "askName" Undefined Undefined st1)) as [e|question] eqn:Hq;
    [intros [=]|].
  rewrite bindW_prompt, bindW_eq.
  destruct (askMoney Number (rounds w) (shown ++ [Prompt question]) st1)
    as [[[e|[money|]] tr] st2] eqn:Eask; [intros [=]| |intros [=]].
  destruct (askMoney_events _ _ _ _ _ _ Eask)
    as (-> & before & answer & after & howMany & groups
        & Hrounds & Hdecl & Hhow & Hall & Hmoney & ->).
  rewrite bindW_getString.
  destruct (fst (getString "hereHave" (Arr [nameAnswer w; Str money]) Undefined st1))
    as [e|first] eqn:Hfirst; [intros [=]|].
  rewrite bindW_getString.
  destruct (fst (getString "hopeEnough" (Arr [nameAnswer w; Str money]) Undefined st1))
    as [e|second] eqn:Hsecond; [intros [=]|].
  unfold alert, emit, bindW, retW. intros [= <- <-].
  exists before, answer, after, question, howMany, groups, money, first, second.
  repeat split; try assumption.
  - rewrite getString_pair, Hq. reflexivity.
  - rewrite getString_pair, Hfirst. reflexivity.
  - rewrite getString_pair, Hsecond. reflexivity.
  - rewrite <- !app_assoc. reflexivity.
Qed.

End StartupEvents.

Lemma startup_finished_witness :
  exists before answer after question howMany groups money first second,
    init demoMakeGetter "en-US" dialogAddon None uninitialized = (inr tt, dialogStore)
    /\ rounds dialogWindow = before ++ (answer, true) :: after
    /\ declined before = true
    /\ getString "askName" Undefined Undefined dialogStore = (inr question, dialogStore)
    /\ getString "howMany" Undefined Undefined dialogStore = (inr howMany, dialogStore)
    /\ Forall2 (turnShown dialogNumber dialogStore howMany)
         (before ++ [(answer, true)]) groups
    /\ getString "money" (Num (dialogNumber answer)) (Num (dialogNumber answer))
         dialogStore
       = (inr money, dialogStore)
    /\ getString "hereHave" (Arr [nameAnswer dialogWindow; Str money]) Undefined
         dialogStore
       = (inr first, dialogStore)
    /\ getString "hopeEnough" (Arr [nameAnswer dialogWindow; Str money]) Undefined
         dialogStore
       = (inr second, dialogStore)
    /\ dialogShown = [] ++ [Prompt question] ++ concat groups
                     ++ [Alert (first +:+ lineFeed +:+ second)].
Proof.
  apply (startup_finished demoMakeGetter "en-US" dialogNumber dialogAddon dialogWindow
           [] dialogShown uninitialized dialogStore).
  reflexivity.
Defined.
